(** * Verification of the prefix / postfix expression evaluators

    A shallow embedding of [eval_rpn.py] and [eval_prefix.py].

    - [Py] models the part of the Python runtime the two files rely on:
      objects, exceptions, generators, [str.split], [int], [float] and the
      functions of the [operator] module stored in the [OPCODES] table.
    - [EvalRpn] embeds [eval_rpn.py], [EvalPrefix] embeds [eval_prefix.py].
    - The theorems follow the definitions.

    Conventions.  A Python list used as a stack ([append] / [pop] at the
    end) is a Rocq list whose head is the top of the stack.  Strings are
    ASCII strings.  Floats are IEEE-754 binary64 values ([spec_float] with
    precision 53 and maximal exponent 1024); a NaN has neither sign nor
    payload. *)

From Stdlib Require Import ZArith List String Ascii Bool Lia.
From Stdlib Require Import Floats.SpecFloat.
Import ListNotations.

Local Open Scope string_scope.
Local Open Scope list_scope.
Local Open Scope Z_scope.

(* ================================================================== *)
(** * The Python runtime *)
(* ================================================================== *)

Module Py.

(** ** Objects, exceptions and outcomes *)

(** The objects that can flow through the evaluators: [int], [bool],
    [float] and [str]. *)
Inductive pyobj : Type :=
| PInt (z : Z)
| PBool (b : bool)
| PFloat (f : spec_float)
| PStr (s : string).

Inductive exn_class : Type :=
| ValueError
| IndexError
| KeyError
| ZeroDivisionError
| OverflowError
| TypeError.

(** An exception is its class and its argument ([e.args[0]]). *)
Inductive exn : Type :=
| Exn (c : exn_class) (arg : pyobj).

(** The outcome of a computation: a value, a raised exception, or
    [Unmodelled] when the computation leaves the fragment of Python that
    is modelled here (see [float_pow] and [binop]).  An
    [Unmodelled] outcome says nothing about what Python does. *)
Inductive result (A : Type) : Type :=
| Ok (a : A)
| Raise (e : exn)
| Unmodelled.

Arguments Ok {A} a.
Arguments Raise {A} e.
Arguments Unmodelled {A}.

Definition bind {A B : Type} (m : result A) (k : A -> result B) : result B :=
  match m with
  | Ok a => k a
  | Raise e => Raise e
  | Unmodelled => Unmodelled
  end.

Declare Scope py_scope.
Delimit Scope py_scope with py.
Notation "x <- m ;; k" := (bind m (fun x => k))
  (at level 61, m at next level, right associativity) : py_scope.
Notation "' pat <- m ;; k" := (bind m (fun x => match x with pat => k end))
  (at level 61, pat pattern, m at next level, right associativity) : py_scope.
Local Open Scope py_scope.

Definition raise {A : Type} (c : exn_class) (msg : string) : result A :=
  Raise (Exn c (PStr msg)).

(** ** Lists used as stacks *)

(** [l.pop()] *)
Definition pop (l : list pyobj) : result (pyobj * list pyobj) :=
  match l with
  | [] => raise IndexError "pop from empty list"
  | x :: l' => Ok (x, l')
  end.

(** ** Iterables: generators and lists *)

(** A generator is the list of the outcomes of its successive resumptions:
    [Ok v] when it yields [v], [Raise e] when its body raises [e].  Nothing
    is computed before the consumer asks for the next item. *)
Definition generator : Type := list (result pyobj).

Inductive iterable : Type :=
| IGen (g : generator)
| IList (l : list pyobj).

(** [iter(tokens)]: the stream a [for] loop walks over. *)
Definition iter (tokens : iterable) : generator :=
  match tokens with
  | IGen g => g
  | IList l => map Ok l
  end.

(** Running a generator to its end, as [list(g)] does. *)
Fixpoint drain (g : generator) : result (list pyobj) :=
  match g with
  | [] => Ok []
  | r :: g' => x <- r ;; xs <- drain g' ;; Ok (x :: xs)
  end.

(** [reversed(x)] needs a sequence; a generator is not one. *)
Definition reversed (tokens : iterable) : result (list pyobj) :=
  match tokens with
  | IGen _ => raise TypeError "'generator' object is not reversible"
  | IList l => Ok (rev l)
  end.

(** ** Numbers *)

Definition prec : Z := 53.
Definition emax : Z := 1024.

(** [isinstance(x, (int, float))]; [bool] is a subclass of [int]. *)
Definition is_number (x : pyobj) : bool :=
  match x with
  | PInt _ | PBool _ | PFloat _ => true
  | PStr _ => false
  end.

(** The numeric reading of an object: [bool] behaves as the ints 0 and 1. *)
Inductive num : Type :=
| NInt (z : Z)
| NFloat (f : spec_float).

Definition as_num (x : pyobj) : option num :=
  match x with
  | PInt z => Some (NInt z)
  | PBool b => Some (NInt (if b then 1 else 0))
  | PFloat f => Some (NFloat f)
  | PStr _ => None
  end.

(** [float(z)] for an int [z]: round to nearest even, [OverflowError] when
    the result is not finite. *)
Definition float_of_int (z : Z) : result spec_float :=
  match binary_normalize prec emax z 0 false with
  | S754_infinity _ => raise OverflowError "int too large to convert to float"
  | f => Ok f
  end.

Definition to_float (n : num) : result spec_float :=
  match n with
  | NInt z => float_of_int z
  | NFloat f => Ok f
  end.

(** The correctly rounded quotient of two integers, [b] not zero. *)
Definition ratio_to_float (a b : Z) : spec_float :=
  let sb := (b <? 0) in
  match a with
  | Z0 => S754_zero sb
  | Zpos p => SFdiv prec emax (S754_finite sb p 0) (S754_finite false (Z.to_pos (Z.abs b)) 0)
  | Zneg p => SFdiv prec emax (S754_finite (negb sb) p 0) (S754_finite false (Z.to_pos (Z.abs b)) 0)
  end.

Definition float_is_zero (f : spec_float) : bool :=
  match f with
  | S754_zero _ => true
  | _ => false
  end.

(** [x == 0] for a number. *)
Definition num_is_zero (n : num) : bool :=
  match n with
  | NInt z => z =? 0
  | NFloat f => float_is_zero f
  end.

Definition is_zero (x : pyobj) : bool :=
  match as_num x with
  | Some n => num_is_zero n
  | None => false
  end.

(** ** The functions of the [operator] module *)

(** [+], [-], [*]: exact on ints, IEEE on floats, an int operand next to a
    float is converted first. *)
Definition arith (iop : Z -> Z -> Z) (fop : spec_float -> spec_float -> spec_float)
  (a b : num) : result pyobj :=
  match a, b with
  | NInt x, NInt y => Ok (PInt (iop x y))
  | _, _ => fa <- to_float a ;; fb <- to_float b ;; Ok (PFloat (fop fa fb))
  end.

Definition zero_division {A : Type} : result A :=
  raise ZeroDivisionError "division by zero".

(** [operator.truediv] *)
Definition truediv (a b : num) : result pyobj :=
  match a, b with
  | NInt x, NInt y =>
      if y =? 0 then zero_division
      else match ratio_to_float x y with
           | S754_infinity _ =>
               raise OverflowError "integer division result too large for a float"
           | f => Ok (PFloat f)
           end
  | _, _ =>
      fa <- to_float a ;; fb <- to_float b ;;
      if float_is_zero fb then zero_division else Ok (PFloat (SFdiv prec emax fa fb))
  end.

(** The sign bit of a float; a NaN counts as positive. *)
Definition signbit (f : spec_float) : bool :=
  match f with
  | S754_zero s | S754_infinity s | S754_finite s _ _ => s
  | S754_nan => false
  end.

Definition float_zero : spec_float := S754_zero false.

(** The C library's [fmod x y] for [y] not zero: the remainder of the
    division truncated toward zero, exact, with the sign of [x]. *)
Definition fmod (x y : spec_float) : spec_float :=
  match x, y with
  | S754_nan, _ | _, S754_nan | S754_infinity _, _ | _, S754_zero _ => S754_nan
  | S754_zero _, _ | _, S754_infinity _ => x
  | S754_finite sx mx ex, S754_finite _ my ey =>
      let e := Z.min ex ey in
      let r := (Zpos mx * 2 ^ (ex - e)) mod (Zpos my * 2 ^ (ey - e)) in
      binary_normalize prec emax (if sx then - r else r) e sx
  end.

(** The C library's [floor]. *)
Definition floor (x : spec_float) : spec_float :=
  match x with
  | S754_finite s m e =>
      if 0 <=? e then x
      else binary_normalize prec emax ((if s then Zneg m else Zpos m) / 2 ^ (- e)) 0 s
  | _ => x
  end.

(** The remainder of [float.__mod__] and [float.__floordiv__], [fb] not
    zero: [fmod], moved to the sign of the divisor. *)
Definition float_remainder (fa fb : spec_float) : spec_float :=
  let r := fmod fa fb in
  if float_is_zero r then S754_zero (signbit fb)
  else if negb (Bool.eqb (SFltb fb float_zero) (SFltb r float_zero))
       then SFadd prec emax r fb
       else r.

(** The quotient of [float.__floordiv__], [fb] not zero. *)
Definition float_quotient (fa fb : spec_float) : spec_float :=
  let r := fmod fa fb in
  let d := SFdiv prec emax (SFsub prec emax fa r) fb in
  let d :=
    if float_is_zero r then d
    else if negb (Bool.eqb (SFltb fb float_zero) (SFltb r float_zero))
         then SFsub prec emax d (SFone prec emax)
         else d in
  if float_is_zero d then S754_zero (signbit (SFdiv prec emax fa fb))
  else
    let q := floor d in
    if SFltb (SFldexp prec emax (SFone prec emax) (-1)) (SFsub prec emax d q)
    then SFadd prec emax q (SFone prec emax)
    else q.

(** [float.__floordiv__] *)
Definition float_floordiv (fa fb : spec_float) : result pyobj :=
  if float_is_zero fb then zero_division else Ok (PFloat (float_quotient fa fb)).

(** [float.__mod__] *)
Definition float_mod (fa fb : spec_float) : result pyobj :=
  if float_is_zero fb then zero_division else Ok (PFloat (float_remainder fa fb)).

(** [operator.floordiv] *)
Definition floordiv (a b : num) : result pyobj :=
  match a, b with
  | NInt x, NInt y => if y =? 0 then zero_division else Ok (PInt (x / y))
  | _, _ => fa <- to_float a ;; fb <- to_float b ;; float_floordiv fa fb
  end.

(** [operator.mod] *)
Definition mod_ (a b : num) : result pyobj :=
  match a, b with
  | NInt x, NInt y => if y =? 0 then zero_division else Ok (PInt (x mod y))
  | _, _ => fa <- to_float a ;; fb <- to_float b ;; float_mod fa fb
  end.

(** [x] is an odd integer. *)
Definition is_odd_integer (x : spec_float) : bool :=
  SFeqb (fmod (SFabs x) (binary_normalize prec emax 2 0 false)) (SFone prec emax).

(** [float.__pow__].  The special cases are decided before the C library
    is asked: a zero exponent, NaNs, infinities, a zero base (which raises
    for a negative exponent) and the bases 1 and -1.  What is left is
    computed by the C library's [pow], or is a complex number (a negative
    base to a fractional power), and is not modelled. *)
Definition float_pow (fa fb : spec_float) : result pyobj :=
  let one := SFone prec emax in
  if float_is_zero fb then Ok (PFloat one)
  else
    match fa, fb with
    | S754_nan, _ => Ok (PFloat S754_nan)
    | _, S754_nan => Ok (PFloat (if SFeqb fa one then one else S754_nan))
    | _, S754_infinity sw =>
        let a := SFabs fa in
        if SFeqb a one then Ok (PFloat one)
        else if Bool.eqb (negb sw) (SFltb one a) then Ok (PFloat (S754_infinity false))
        else Ok (PFloat float_zero)
    | S754_infinity sv, _ =>
        if SFltb float_zero fb
        then Ok (PFloat (if is_odd_integer fb then fa else S754_infinity false))
        else Ok (PFloat (if is_odd_integer fb then S754_zero sv else float_zero))
    | S754_zero _, _ =>
        if SFltb fb float_zero
        then raise ZeroDivisionError "0.0 cannot be raised to a negative power"
        else Ok (PFloat (if is_odd_integer fb then fa else float_zero))
    | S754_finite sv _ _, _ =>
        if (sv && negb (SFeqb fb (floor fb)))%bool then Unmodelled
        else if SFeqb (SFabs fa) one
             then Ok (PFloat (if (sv && is_odd_integer fb)%bool then SFopp one else one))
             else Unmodelled
    end.

(** [operator.pow]: exact for an int to a non-negative int power, a float
    power otherwise. *)
Definition pow (a b : num) : result pyobj :=
  match a, b with
  | NInt x, NInt y =>
      if 0 <=? y then Ok (PInt (x ^ y))
      else fa <- float_of_int x ;; fb <- float_of_int y ;; float_pow fa fb
  | _, _ => fa <- to_float a ;; fb <- to_float b ;; float_pow fa fb
  end.

(** Comparison of an int with a float is exact, without conversion. *)
Definition compare_int_float (z : Z) (f : spec_float) : option comparison :=
  match f with
  | S754_nan => None
  | S754_infinity s => Some (if s then Gt else Lt)
  | S754_zero _ => Some (z ?= 0)
  | S754_finite s m e =>
      let v := if s then Zneg m else Zpos m in
      Some (if 0 <=? e then z ?= v * 2 ^ e else z * 2 ^ (- e) ?= v)
  end.

(** [None] when one of the operands is a NaN. *)
Definition num_compare (a b : num) : option comparison :=
  match a, b with
  | NInt x, NInt y => Some (x ?= y)
  | NFloat x, NFloat y => SFcompare x y
  | NInt x, NFloat y => compare_int_float x y
  | NFloat x, NInt y => option_map CompOpp (compare_int_float y x)
  end.

Definition richcompare (test : option comparison -> bool) (a b : num) : result pyobj :=
  Ok (PBool (test (num_compare a b))).

Definition is_lt (c : option comparison) : bool :=
  match c with Some Lt => true | _ => false end.
Definition is_le (c : option comparison) : bool :=
  match c with Some Lt | Some Eq => true | _ => false end.
Definition is_gt (c : option comparison) : bool :=
  match c with Some Gt => true | _ => false end.
Definition is_ge (c : option comparison) : bool :=
  match c with Some Gt | Some Eq => true | _ => false end.
Definition is_eq (c : option comparison) : bool :=
  match c with Some Eq => true | _ => false end.
Definition is_ne (c : option comparison) : bool := negb (is_eq c).

(** A binary operator applied to two objects.  The operators are modelled
    on numbers; what they do to a [str] operand (concatenation, repetition,
    formatting, ordering) is not. *)
Definition binop (f : num -> num -> result pyobj) (lhs rhs : pyobj) : result pyobj :=
  match as_num lhs, as_num rhs with
  | Some a, Some b => f a b
  | _, _ => Unmodelled
  end.

Definition operator_add := binop (arith Z.add (SFadd prec emax)).
Definition operator_sub := binop (arith Z.sub (SFsub prec emax)).
Definition operator_mul := binop (arith Z.mul (SFmul prec emax)).
Definition operator_truediv := binop truediv.
Definition operator_floordiv := binop floordiv.
Definition operator_mod := binop mod_.
Definition operator_pow := binop pow.
Definition operator_lt := binop (richcompare is_lt).
Definition operator_le := binop (richcompare is_le).
Definition operator_gt := binop (richcompare is_gt).
Definition operator_ge := binop (richcompare is_ge).
Definition operator_eq := binop (richcompare is_eq).
Definition operator_ne := binop (richcompare is_ne).

(** ** Strings: [str.split], [int], [float] *)

(** [c.isspace()] for an ASCII character: tab, newline, vertical tab, form
    feed, carriage return, the four separators 28..31 and the space. *)
Definition isspace (c : ascii) : bool :=
  let n := Z.of_nat (nat_of_ascii c) in
  ((9 <=? n) && (n <=? 13)) || ((28 <=? n) && (n <=? 32)).

(** [split_from cur s]: the words of [s], the first one prefixed by the
    characters [cur] read so far. *)
Fixpoint split_from (cur : string) (s : string) : list string :=
  match s with
  | EmptyString => match cur with EmptyString => [] | _ => [cur] end
  | String c s' =>
      if isspace c then
        match cur with
        | EmptyString => split_from EmptyString s'
        | _ => cur :: split_from EmptyString s'
        end
      else split_from (cur ++ String c EmptyString)%string s'
  end.

(** [expr.split()]: the maximal runs of characters that are not whitespace. *)
Definition split (expr : string) : list string := split_from EmptyString expr.

Definition digit_value (c : ascii) : option Z :=
  let n := Z.of_nat (nat_of_ascii c) in
  if (48 <=? n) && (n <=? 57) then Some (n - 48) else None.

(** A run of decimal digits in which single underscores may separate two
    digits.  [digits_from acc n s] continues a run whose value so far is
    [acc] over [n] digits; it returns the value, the number of digits and
    what follows the run. *)
Fixpoint digits_from (acc : Z) (n : Z) (s : string) : Z * Z * string :=
  match s with
  | String c s' =>
      match digit_value c with
      | Some d => digits_from (10 * acc + d) (n + 1) s'
      | None =>
          if Ascii.eqb c "_" then
            match s' with
            | String c' s'' =>
                match digit_value c' with
                | Some d => digits_from (10 * acc + d) (n + 1) s''
                | None => (acc, n, s)
                end
            | EmptyString => (acc, n, s)
            end
          else (acc, n, s)
      end
  | EmptyString => (acc, n, s)
  end.

(** A run of at least one digit; [None] when [s] does not start with a
    digit. *)
Definition digits (s : string) : option (Z * Z * string) :=
  match s with
  | String c s' =>
      match digit_value c with
      | Some d => Some (digits_from d 1 s')
      | None => None
      end
  | EmptyString => None
  end.

(** An optional sign: [true] for a minus. *)
Definition sign (s : string) : bool * string :=
  match s with
  | String "-" s' => (true, s')
  | String "+" s' => (false, s')
  | _ => (false, s)
  end.

Definition invalid_literal {A : Type} (what : string) (s : string) : result A :=
  raise ValueError (what ++ "'" ++ s ++ "'")%string.

(** [int(s)] for a string without surrounding whitespace: an optional sign
    and a run of digits.  The limit that recent interpreters put on the
    number of digits is not modelled. *)
Definition int (s : string) : result pyobj :=
  let '(neg, body) := sign s in
  match digits body with
  | Some (v, _, EmptyString) => Ok (PInt (if neg then - v else v))
  | _ => invalid_literal "invalid literal for int() with base 10: " s
  end.

Definition lower (c : ascii) : ascii :=
  let n := nat_of_ascii c in
  if (Nat.leb 65 n && Nat.leb n 90)%bool then ascii_of_nat (n + 32) else c.

Fixpoint lowercase (s : string) : string :=
  match s with
  | EmptyString => EmptyString
  | String c s' => String (lower c) (lowercase s')
  end.

(** The binary64 value nearest to [m * 10 ^ e] ([m] not negative), with the
    sign [neg]. *)
Definition decimal_to_float (neg : bool) (m : Z) (e : Z) : spec_float :=
  match m with
  | Zpos p =>
      if 0 <=? e then binary_normalize prec emax ((if neg then Zneg p else Zpos p) * 10 ^ e) 0 false
      else SFdiv prec emax (S754_finite neg p 0) (S754_finite false (Z.to_pos (10 ^ (- e))) 0)
  | _ => S754_zero neg
  end.

(** The exponent part of a float literal: [e] or [E], an optional sign and
    digits.  Without it the exponent is 0. *)
Definition exponent (s : string) : option (Z * string) :=
  match s with
  | String c s' =>
      if Ascii.eqb (lower c) "e" then
        let '(neg, body) := sign s' in
        match digits body with
        | Some (v, _, rest) => Some (if neg then - v else v, rest)
        | None => None
        end
      else Some (0, s)
  | EmptyString => Some (0, s)
  end.

(** The mantissa of a float literal: digits, optionally a point and more
    digits, with at least one digit overall.  Returns the digits read as
    one integer, the number of them after the point, and the rest. *)
Definition mantissa (s : string) : option (Z * Z * string) :=
  match digits s with
  | Some (i, _, String "." s') =>
      match digits s' with
      | Some (f, _, _) =>
          let '(v, n, rest) := digits_from i 0 s' in Some (v, n, rest)
      | None => Some (i, 0, s')
      end
  | Some (i, _, rest) => Some (i, 0, rest)
  | None =>
      match s with
      | String "." s' =>
          match digits s' with
          | Some (v, n, rest) => Some (v, n, rest)
          | None => None
          end
      | _ => None
      end
  end.

(** [float(s)] for a string without surrounding whitespace: an optional
    sign, then [inf], [infinity], [nan] in any case, or a decimal literal;
    the value is the nearest binary64 number. *)
Definition float (s : string) : result pyobj :=
  let '(neg, body) := sign s in
  let word := lowercase body in
  if (String.eqb word "inf" || String.eqb word "infinity")%bool
  then Ok (PFloat (S754_infinity neg))
  else if String.eqb word "nan" then Ok (PFloat S754_nan)
  else
    match mantissa body with
    | Some (m, nfrac, rest) =>
        match exponent rest with
        | Some (e, EmptyString) => Ok (PFloat (decimal_to_float neg m (e - nfrac)))
        | _ => invalid_literal "could not convert string to float: " s
        end
    | None => invalid_literal "could not convert string to float: " s
    end.

End Py.

Import Py.
Local Open Scope py_scope.

(* ================================================================== *)
(** * eval_rpn.py *)
(* ================================================================== *)

Module EvalRpn.

(** The operator table, a dict from symbol to function. *)
Definition OPCODES : list (string * (pyobj -> pyobj -> result pyobj)) :=
  [ ("+", operator_add);
    ("-", operator_sub);
    ("*", operator_mul);
    ("/", operator_truediv);
    ("//", operator_floordiv);
    ("%", operator_mod);
    ("^", operator_pow);
    ("<", operator_lt);
    ("<=", operator_le);
    (">", operator_gt);
    (">=", operator_ge);
    ("==", operator_eq);
    ("!=", operator_ne) ].

(** [OPCODES.get(key)] for a string key. *)
Fixpoint lookup {V : Type} (key : string) (d : list (string * V)) : option V :=
  match d with
  | [] => None
  | (k, v) :: d' => if String.eqb key k then Some v else lookup key d'
  end.

(** [OPCODES[key]]: a number is hashable but is never equal to a key. *)
Definition getitem (key : pyobj) : result (pyobj -> pyobj -> result pyobj) :=
  match key with
  | PStr s =>
      match lookup s OPCODES with
      | Some f => Ok f
      | None => Raise (Exn KeyError key)
      end
  | _ => Raise (Exn KeyError key)
  end.

(** [key in OPCODES] *)
Definition contains (key : pyobj) : bool :=
  match key with
  | PStr s => match lookup s OPCODES with Some _ => true | None => false end
  | _ => false
  end.

Definition _eval_op (lhs rhs : pyobj) (opcode : pyobj) : result pyobj :=
  f <- getitem opcode ;; f lhs rhs.

Definition _postfix_swap (a b : pyobj) : pyobj * pyobj := (b, a).

Definition _prefix_swap (a b : pyobj) : pyobj * pyobj := (a, b).

(** The three [except] clauses around the application of an operator. *)
Definition reraise {A : Type} (r : result A) : result A :=
  match r with
  | Raise (Exn IndexError _) => raise IndexError "Invalid expression."
  | Raise (Exn KeyError _) => raise KeyError "Invalid operator."
  | Raise (Exn ZeroDivisionError _) => raise ZeroDivisionError "Can not divide by zero."
  | _ => r
  end.

(** The body of the [for] loop: one token against the operand stack. *)
Definition step (swap_func : pyobj -> pyobj -> pyobj * pyobj)
  (operands : list pyobj) (tok : pyobj) : result (list pyobj) :=
  if contains tok then
    reraise ('(a, operands1) <- pop operands ;;
             '(b, operands2) <- pop operands1 ;;
             let '(lhs, rhs) := swap_func a b in
             v <- _eval_op lhs rhs tok ;;
             Ok (v :: operands2))
  else Ok (tok :: operands).

(** The [for] loop over the token stream. *)
Fixpoint loop (swap_func : pyobj -> pyobj -> pyobj * pyobj)
  (tokens : generator) (operands : list pyobj) : result (list pyobj) :=
  match tokens with
  | [] => Ok operands
  | r :: tokens' =>
      tok <- r ;;
      operands' <- step swap_func operands tok ;;
      loop swap_func tokens' operands'
  end.

(** What follows the loop. *)
Definition finish (operands : list pyobj) : result pyobj :=
  match operands with
  | [v] => Ok v
  | _ => raise ValueError "Invalid expression."
  end.

Definition _eval_expr (tokens : iterable)
  (swap_func : pyobj -> pyobj -> pyobj * pyobj) : result pyobj :=
  operands <- loop swap_func (iter tokens) [] ;;
  finish operands.

(** The first parse function that does not raise [ValueError] gives the
    result. *)
Fixpoint _try_parse (value : string) (parse_functions : list (string -> result pyobj))
  : result pyobj :=
  match parse_functions with
  | [] => raise ValueError ("Invalid symbol '" ++ value ++ "' found.")%string
  | parse_function :: rest =>
      match parse_function value with
      | Raise (Exn ValueError _) => _try_parse value rest
      | r => r
      end
  end.

(** The generator of the tokens of [expr]. *)
Definition _tokenize_expr (expr : string) : generator :=
  map (fun token =>
         if contains (PStr token) then Ok (PStr token)
         else _try_parse token [int; float])
      (split expr).

Definition eval_postfix_expr (expr : string) : result pyobj :=
  let tokens := IGen (_tokenize_expr expr) in
  _eval_expr tokens _postfix_swap.

Definition eval_prefix_expr (expr : string) : result pyobj :=
  tokens <- reversed (IGen (_tokenize_expr expr)) ;;
  _eval_expr (IList tokens) _prefix_swap.

End EvalRpn.

(* ================================================================== *)
(** * eval_prefix.py *)
(* ================================================================== *)

Module EvalPrefix.

(** The same table as in [eval_rpn.py]. *)
Definition OPCODES : list (string * (pyobj -> pyobj -> result pyobj)) :=
  [ ("+", operator_add);
    ("-", operator_sub);
    ("*", operator_mul);
    ("/", operator_truediv);
    ("//", operator_floordiv);
    ("%", operator_mod);
    ("^", operator_pow);
    ("<", operator_lt);
    ("<=", operator_le);
    (">", operator_gt);
    (">=", operator_ge);
    ("==", operator_eq);
    ("!=", operator_ne) ].

(** [OPCODES[key]] *)
Definition getitem (key : pyobj) : result (pyobj -> pyobj -> result pyobj) :=
  match key with
  | PStr s =>
      match EvalRpn.lookup s OPCODES with
      | Some f => Ok f
      | None => Raise (Exn KeyError key)
      end
  | _ => Raise (Exn KeyError key)
  end.

(** [key in OPCODES] *)
Definition contains (key : pyobj) : bool :=
  match key with
  | PStr s => match EvalRpn.lookup s OPCODES with Some _ => true | None => false end
  | _ => false
  end.

Definition _eval_op (lhs rhs : pyobj) (opcode : pyobj) : result pyobj :=
  f <- getitem opcode ;; f lhs rhs.

(** The two stacks of [_eval_expr]. *)
Record state : Type := State {
  token_stack : list pyobj;
  count_stack : list Z
}.

(** [if count_stack: count_stack[-1] -= 1] *)
Definition decrement (count_stack : list Z) : list Z :=
  match count_stack with
  | [] => []
  | c :: rest => (c - 1) :: rest
  end.

(** [list(tokens)] while the loop still has [pending] to walk over.  A
    generator is its own iterator: listing it consumes what the loop has
    not seen yet.  A list is copied and the loop's position is untouched.
    Returns the listed items and whether the stream has been consumed. *)
Definition list_tokens (tokens : iterable) (pending : generator)
  : result (list pyobj * bool) :=
  match tokens with
  | IGen _ => items <- drain pending ;; Ok (items, true)
  | IList l => Ok (l, false)
  end.

(** The [if] / [else] at the head of the loop body.  Returns the new stacks
    and whether the token stream has been consumed. *)
Definition push_token (tokens : iterable) (token : pyobj) (pending : generator)
  (st : state) : result (state * bool) :=
  if is_number token then
    consumed <-
      match token_stack st with
      | [] =>
          '(items, consumed) <- list_tokens tokens pending ;;
          if 1 <? Z.of_nat (List.length items)
          then raise ValueError "Invalid expression."
          else Ok consumed
      | _ :: _ => Ok false
      end ;;
    Ok (State (token :: token_stack st) (decrement (count_stack st)), consumed)
  else
    if contains token
    then Ok (State (token :: token_stack st) (2 :: count_stack st), false)
    else raise ValueError "Invalid operator seen.".

(** The two [except] clauses of the reduction. *)
Definition reraise {A : Type} (r : result A) : result A :=
  match r with
  | Raise (Exn ValueError _) | Raise (Exn IndexError _) =>
      raise ValueError "Invalid expression."
  | Raise (Exn ZeroDivisionError _) => raise ValueError "Can not divide by zero."
  | _ => r
  end.

(** The [try] statement of the [while] body: three pops, one push. *)
Definition reduce (token_stack : list pyobj) : result (list pyobj) :=
  reraise ('(rhs, ts1) <- pop token_stack ;;
           '(lhs, ts2) <- pop ts1 ;;
           '(op, ts3) <- pop ts2 ;;
           v <- _eval_op lhs rhs op ;;
           Ok (v :: ts3)).

(** One turn of the [while] loop; [None] when its test fails. *)
Definition while_step (st : state) : option (result state) :=
  match count_stack st with
  | c :: rest =>
      if c =? 0 then
        Some (ts <- reduce (token_stack st) ;; Ok (State ts (decrement rest)))
      else None
  | [] => None
  end.

(** The [while] loop, entered with [top] on top of the count stack and
    [below] under it.  Every turn pops one count. *)
Fixpoint while_top (token_stack : list pyobj) (top : Z) (below : list Z)
  : result state :=
  if top =? 0 then
    ts <- reduce token_stack ;;
    match below with
    | [] => Ok (State ts [])
    | c :: below' => while_top ts (c - 1) below'
    end
  else Ok (State token_stack (top :: below)).

Definition while_loop (st : state) : result state :=
  match count_stack st with
  | [] => Ok st
  | top :: below => while_top (token_stack st) top below
  end.

(** The body of the [for] loop. *)
Definition body (tokens : iterable) (token : pyobj) (pending : generator)
  (st : state) : result (state * bool) :=
  '(st1, consumed) <- push_token tokens token pending st ;;
  st2 <- while_loop st1 ;;
  Ok (st2, consumed).

(** The [for] loop over [pending], what the iterator still has to give.
    When the body has consumed the stream the loop finds nothing more. *)
Fixpoint loop (tokens : iterable) (pending : generator) (st : state)
  : result state :=
  match pending with
  | [] => Ok st
  | r :: rest =>
      token <- r ;;
      '(st', consumed) <- body tokens token rest st ;;
      if consumed then Ok st' else loop tokens rest st'
  end.

(** What follows the loop. *)
Definition finish (st : state) : result pyobj :=
  if (negb (Z.of_nat (List.length (token_stack st)) =? 1)
      || match count_stack st with [] => false | _ => true end)%bool
  then raise ValueError "Invalid expression."
  else
    match token_stack st with
    | v :: _ => Ok v
    | [] => Ok (PInt 0)
    end.

Definition _eval_expr (tokens : iterable) : result pyobj :=
  st <- loop tokens (iter tokens) (State [] []) ;;
  finish st.

Fixpoint _try_parse (value : string) (parse_functions : list (string -> result pyobj))
  : result pyobj :=
  match parse_functions with
  | [] => raise ValueError ("Invalid symbol '" ++ value ++ "' found.")%string
  | parse_function :: rest =>
      match parse_function value with
      | Raise (Exn ValueError _) => _try_parse value rest
      | r => r
      end
  end.

Definition _tokenize_expr (expr : string) : generator :=
  map (fun token =>
         if contains (PStr token) then Ok (PStr token)
         else _try_parse token [int; float])
      (split expr).

Definition eval_prefix_expr (expr : string) : result pyobj :=
  let tokens := IGen (_tokenize_expr expr) in
  _eval_expr tokens.

End EvalPrefix.

(* ================================================================== *)
(** * Vocabulary of the properties *)
(* ================================================================== *)

(** ** Tokens and words *)

(** The operator symbols. *)
Definition symbols : list string :=
  ["+"; "-"; "*"; "/"; "//"; "%"; "^"; "<"; "<="; ">"; ">="; "=="; "!="].

(** The failure of the tokenizer on the text [t]. *)
Definition invalid_symbol (t : string) : exn :=
  Exn ValueError (PStr ("Invalid symbol '" ++ t ++ "' found.")%string).

Definition no_space (w : string) : Prop :=
  forall c, In c (list_ascii_of_string w) -> isspace c = false.

(** A word: at least one character, none of them whitespace. *)
Definition word (w : string) : Prop := w <> EmptyString /\ no_space w.

Definition at_boundary (s : string) : Prop :=
  match s with
  | EmptyString => True
  | String c _ => isspace c = true
  end.

(** [splits s ws]: [ws] are the maximal whitespace-free runs of [s], in
    order. *)
Inductive splits : string -> list string -> Prop :=
| splits_end : splits EmptyString []
| splits_space : forall c s ws,
    isspace c = true -> splits s ws -> splits (String c s) ws
| splits_word : forall w s ws,
    word w -> at_boundary s -> splits s ws -> splits (w ++ s)%string (w :: ws).

(** [classified t r]: [r] is what the classification of the word [t]
    gives: the operator itself, else the integer [t] denotes, else the
    float, else the failure naming [t]. *)
Inductive classified (t : string) : result pyobj -> Prop :=
| classified_operator :
    In t symbols -> classified t (Ok (PStr t))
| classified_int : forall z,
    ~ In t symbols -> int t = Ok (PInt z) -> classified t (Ok (PInt z))
| classified_float : forall e f,
    ~ In t symbols -> int t = Raise (Exn ValueError e) -> float t = Ok (PFloat f) ->
    classified t (Ok (PFloat f))
| classified_invalid : forall e e',
    ~ In t symbols -> int t = Raise (Exn ValueError e) ->
    float t = Raise (Exn ValueError e') ->
    classified t (Raise (invalid_symbol t)).

(** ** Prefix expressions *)

Inductive expr : Type :=
| Num (n : pyobj)
| Bin (op : string) (lhs rhs : expr).

(** The token sequence of an expression in prefix notation. *)
Fixpoint prefix_tokens (e : expr) : list pyobj :=
  match e with
  | Num n => [n]
  | Bin op lhs rhs => PStr op :: prefix_tokens lhs ++ prefix_tokens rhs
  end.

(** Leaves are numbers, nodes are operators of the table. *)
Fixpoint well_formed (e : expr) : Prop :=
  match e with
  | Num n => is_number n = true
  | Bin op lhs rhs =>
      EvalPrefix.contains (PStr op) = true /\ well_formed lhs /\ well_formed rhs
  end.

(** The outcome of evaluating the left operand first, as a forward scan
    meets them, with the exceptions of the forward scan. *)
Fixpoint outcome_forward (e : expr) : result pyobj :=
  match e with
  | Num n => Ok n
  | Bin op lhs rhs =>
      a <- outcome_forward lhs ;;
      b <- outcome_forward rhs ;;
      EvalPrefix.reraise (EvalPrefix._eval_op a b (PStr op))
  end.

(** The outcome of evaluating the right operand first, as a scan of the
    reversed tokens meets them, with the exceptions of the stack engine. *)
Fixpoint outcome_backward (e : expr) : result pyobj :=
  match e with
  | Num n => Ok n
  | Bin op lhs rhs =>
      b <- outcome_backward rhs ;;
      a <- outcome_backward lhs ;;
      EvalRpn.reraise (EvalRpn._eval_op a b (PStr op))
  end.

(** The tokens the stack engine has read when its stack holds the values
    of the expressions [es], the top of the stack first: every expression
    in reversed prefix notation, the deepest one first. *)
Definition read_backward (es : list expr) : list pyobj :=
  List.concat (map (fun e => rev (prefix_tokens e)) (rev es)).

(** [parsed read ts cs]: the forward scan has read the tokens [read] when
    its stacks are [ts] and [cs].  With no operator open the stack holds
    the values of complete expressions; an open operator with count 2 has
    just been read; one with count 1 has been followed by one complete
    operand. *)
Inductive parsed : list pyobj -> list pyobj -> list Z -> Prop :=
| parsed_base : forall es vs,
    Forall well_formed es ->
    Forall2 (fun e v => outcome_forward e = Ok v) es vs ->
    parsed (List.concat (map prefix_tokens es)) (rev vs) []
| parsed_two : forall read ts cs op,
    parsed read ts cs ->
    EvalPrefix.contains (PStr op) = true ->
    parsed (read ++ [PStr op]) (PStr op :: ts) (2 :: cs)
| parsed_one : forall read ts cs op e a,
    parsed read ts cs ->
    EvalPrefix.contains (PStr op) = true ->
    well_formed e -> outcome_forward e = Ok a ->
    parsed (read ++ PStr op :: prefix_tokens e) (a :: PStr op :: ts) (1 :: cs).

(** ** States of the forward scan *)

(** The two points of [_eval_expr] at which the stacks are looked at: the
    head of the [for] loop and the test of the [while] loop. *)
Inductive point : Type :=
| ForHead
| WhileTest.

(** [reaches tokens p st]: an evaluation of [tokens] can be at the point
    [p] with the stacks [st]. *)
Inductive reaches (tokens : iterable) : point -> EvalPrefix.state -> Prop :=
| reaches_start :
    reaches tokens ForHead (EvalPrefix.State [] [])
| reaches_push : forall st token pending st1 consumed,
    reaches tokens ForHead st ->
    EvalPrefix.push_token tokens token pending st = Ok (st1, consumed) ->
    reaches tokens WhileTest st1
| reaches_reduce : forall st st',
    reaches tokens WhileTest st ->
    EvalPrefix.while_step st = Some (Ok st') ->
    reaches tokens WhileTest st'
| reaches_exit : forall st,
    reaches tokens WhileTest st ->
    EvalPrefix.while_step st = None ->
    reaches tokens ForHead st.

(** The stacks fit together: under each count [c] of the count stack lie
    [2 - c] operands and the operator that waits for them; under the last
    operator there are only numbers. *)
Inductive fits : list pyobj -> list Z -> Prop :=
| fits_base : forall base,
    Forall (fun x => is_number x = true) base -> fits base []
| fits_two : forall op ts cs,
    EvalPrefix.contains (PStr op) = true -> fits ts cs ->
    fits (PStr op :: ts) (2 :: cs)
| fits_one : forall a op ts cs,
    is_number a = true -> EvalPrefix.contains (PStr op) = true -> fits ts cs ->
    fits (a :: PStr op :: ts) (1 :: cs).

(** The same with a completed operator on top. *)
Inductive fits_while : list pyobj -> list Z -> Prop :=
| fits_open : forall ts cs, fits ts cs -> fits_while ts cs
| fits_zero : forall b a op ts cs,
    is_number b = true -> is_number a = true ->
    EvalPrefix.contains (PStr op) = true -> fits ts cs ->
    fits_while (b :: a :: PStr op :: ts) (0 :: cs).

(** ** Items of a token stream *)

(** What the tokenizer can give: a number, an operator of the table, or
    its failure on a word. *)
Inductive tokenizer_item : result pyobj -> Prop :=
| item_number : forall n, is_number n = true -> tokenizer_item (Ok n)
| item_operator : forall op,
    EvalRpn.contains (PStr op) = true -> tokenizer_item (Ok (PStr op))
| item_invalid : forall t, tokenizer_item (Raise (invalid_symbol t)).

(** A number or an arithmetic exception, or nothing the model covers. *)
Definition arithmetic_outcome (r : result pyobj) : Prop :=
  match r with
  | Ok v => is_number v = true
  | Raise (Exn c _) => c = ZeroDivisionError \/ c = OverflowError
  | Unmodelled => True
  end.

(** The exceptions a postfix evaluation of tokenizer items can end with. *)
Definition postfix_failure (e : exn) : Prop :=
  e = Exn IndexError (PStr "Invalid expression.") \/
  e = Exn ValueError (PStr "Invalid expression.") \/
  e = Exn ZeroDivisionError (PStr "Can not divide by zero.") \/
  (exists t, e = invalid_symbol t) \/
  (exists arg, e = Exn OverflowError arg).

(** The exceptions a forward scan of tokenizer items can end with. *)
Definition forward_failure (e : exn) : Prop :=
  e = Exn ValueError (PStr "Invalid expression.") \/
  e = Exn ValueError (PStr "Can not divide by zero.") \/
  (exists t, e = invalid_symbol t) \/
  (exists arg, e = Exn OverflowError arg).

(** The stacks of a state fit together at a point. *)
Definition fits_at (p : point) (st : EvalPrefix.state) : Prop :=
  match p with
  | ForHead => fits (EvalPrefix.token_stack st) (EvalPrefix.count_stack st)
  | WhileTest => fits_while (EvalPrefix.token_stack st) (EvalPrefix.count_stack st)
  end.

(** The three operators that divide. *)
Definition divides (op : string) : Prop := op = "/" \/ op = "//" \/ op = "%".

(** [lhs] can stand next to [rhs] in a division: when [rhs] is a float, an
    int [lhs] has to be converted, and the conversion must not overflow. *)
Definition convertible (lhs rhs : pyobj) : Prop :=
  match as_num lhs, as_num rhs with
  | Some (NInt z), Some (NFloat _) => exists f, float_of_int z = Ok f
  | Some _, Some _ => True
  | _, _ => False
  end.

(** ** Postfix expressions *)

(** The token sequence of an expression in postfix notation. *)
Fixpoint postfix_tokens (e : expr) : list pyobj :=
  match e with
  | Num n => [n]
  | Bin op lhs rhs => postfix_tokens lhs ++ postfix_tokens rhs ++ [PStr op]
  end.

(** The outcome of evaluating the left operand first, with the exceptions
    of the stack engine. *)
Fixpoint outcome_postfix (e : expr) : result pyobj :=
  match e with
  | Num n => Ok n
  | Bin op lhs rhs =>
      a <- outcome_postfix lhs ;;
      b <- outcome_postfix rhs ;;
      EvalRpn.reraise (EvalRpn._eval_op a b (PStr op))
  end.

(** The tokens the postfix evaluator has read when its stack holds the
    values of the expressions [es], the top of the stack first. *)
Definition read_postfix (es : list expr) : list pyobj :=
  List.concat (map postfix_tokens (rev es)).

(** The outcome of the stack engine as the forward scan reports it: a
    [ZeroDivisionError] becomes a [ValueError] with the same argument. *)
Definition as_forward (r : result pyobj) : result pyobj :=
  match r with
  | Raise (Exn ZeroDivisionError arg) => Raise (Exn ValueError arg)
  | _ => r
  end.

(** ** Parse functions *)

(** [f] declines [value]: it raises [ValueError]. *)
Definition declines (value : string) (f : string -> result pyobj) : Prop :=
  exists e, f value = Raise (Exn ValueError e).

(** [r] is not a raised [ValueError]. *)
Definition settles (r : result pyobj) : Prop :=
  forall e, r <> Raise (Exn ValueError e).

(** ** Evaluations without the power operator *)

(** A number or an arithmetic exception, and nothing else: what the
    operators other than [^] give on ints, bools and floats. *)
Definition arithmetic_result (r : result pyobj) : Prop :=
  match r with
  | Ok v => is_number v = true
  | Raise (Exn c _) => c = ZeroDivisionError \/ c = OverflowError
  | Unmodelled => False
  end.

(** The operator [^] is not on the token stack. *)
Definition pow_free (token_stack : list pyobj) : Prop := ~ In (PStr "^") token_stack.

(** [reaches_pow_free tokens p st]: an evaluation of [tokens] that has read
    no token [^] can be at the point [p] with the stacks [st]. *)
Inductive reaches_pow_free (tokens : iterable) : point -> EvalPrefix.state -> Prop :=
| pow_free_start :
    reaches_pow_free tokens ForHead (EvalPrefix.State [] [])
| pow_free_push : forall st token pending st1 consumed,
    reaches_pow_free tokens ForHead st ->
    token <> PStr "^" ->
    EvalPrefix.push_token tokens token pending st = Ok (st1, consumed) ->
    reaches_pow_free tokens WhileTest st1
| pow_free_reduce : forall st st',
    reaches_pow_free tokens WhileTest st ->
    EvalPrefix.while_step st = Some (Ok st') ->
    reaches_pow_free tokens WhileTest st'
| pow_free_exit : forall st,
    reaches_pow_free tokens WhileTest st ->
    EvalPrefix.while_step st = None ->
    reaches_pow_free tokens ForHead st.

(* ================================================================== *)
(** * Properties *)
(* ================================================================== *)

(** ** The two files share the table and the tokenizer *)

Lemma same_table : EvalPrefix.OPCODES = EvalRpn.OPCODES.
Proof. reflexivity. Qed.

Lemma same_eval_op : EvalPrefix._eval_op = EvalRpn._eval_op.
Proof. reflexivity. Qed.

Lemma same_contains : EvalPrefix.contains = EvalRpn.contains.
Proof. reflexivity. Qed.

Lemma same_tokenizer : EvalPrefix._tokenize_expr = EvalRpn._tokenize_expr.
Proof. reflexivity. Qed.

(** ** Generators *)

Lemma drain_yields : forall l, drain (map Ok l) = Ok l.
Proof.
  induction l as [|x l IH]; simpl; [reflexivity|].
  rewrite IH. reflexivity.
Qed.

Lemma drain_raises : forall l e g, drain (map Ok l ++ Raise e :: g) = Raise e.
Proof.
  induction l as [|x l IH]; intros e g; simpl; [reflexivity|].
  rewrite IH. reflexivity.
Qed.

(** ** Empty input *)

(** C1, as stated, fails: on the empty string the postfix evaluator does
    not return 0. *)
Lemma empty_postfix_is_not_zero :
  EvalRpn.eval_postfix_expr "" <> Ok (PInt 0).
Proof. vm_compute. discriminate. Qed.

(** C1, amended: on the empty input string, and on any empty token
    sequence, the postfix stack engine fails with InvalidExpression, the
    failure of every final stack that does not hold exactly one value. *)
Theorem empty_postfix_invalid : forall swap_func,
  EvalRpn._eval_expr (IGen []) swap_func = raise ValueError "Invalid expression." /\
  EvalRpn._eval_expr (IList []) swap_func = raise ValueError "Invalid expression." /\
  EvalRpn.eval_postfix_expr "" = raise ValueError "Invalid expression.".
Proof. intros swap_func. repeat split. Qed.

(** The forward scan has a [return 0] for the empty stack, but the test
    before it has already rejected every stack that is not of length 1. *)
Remark forward_scan_return_0_is_dead : forall st,
  EvalPrefix.token_stack st = [] ->
  EvalPrefix.finish st = raise ValueError "Invalid expression.".
Proof.
  intros [ts cs] H. simpl in H. subst ts. reflexivity.
Qed.

Remark empty_prefix_invalid :
  EvalPrefix.eval_prefix_expr "" = raise ValueError "Invalid expression.".
Proof. reflexivity. Qed.

(** ** Worked examples *)

(** C7: the worked examples hold for the postfix evaluator and for the
    forward-scan prefix evaluator; the prefix evaluator of [eval_rpn.py]
    applies [reversed] to a generator and raises [TypeError] on every
    input, so it returns none of the three values. *)
Theorem worked_examples :
  EvalRpn.eval_postfix_expr "3 4 +" = Ok (PInt 7) /\
  EvalPrefix.eval_prefix_expr "+ 3 4" = Ok (PInt 7) /\
  EvalRpn.eval_postfix_expr "10 5 * 6 2 + /" = float "6.25" /\
  EvalPrefix.eval_prefix_expr "/ * 10 5 + 6 2" = float "6.25" /\
  EvalRpn.eval_postfix_expr "10 7 2 3 * + -" = Ok (PInt (-3)) /\
  EvalPrefix.eval_prefix_expr "- 10 + 7 * 2 3" = Ok (PInt (-3)) /\
  (forall expr,
     EvalRpn.eval_prefix_expr expr =
     raise TypeError "'generator' object is not reversible").
Proof.
  repeat split; try (vm_compute; reflexivity).
Qed.

(** ** A leading operand in the forward scan *)

(** C3: a lone operator and a trailing operand are rejected with
    InvalidExpression, but two bare numbers are not: the second one is
    consumed by the length test and the first one is returned. *)
Theorem two_leading_numbers_accepted :
  EvalPrefix.eval_prefix_expr "+" = raise ValueError "Invalid expression." /\
  EvalPrefix.eval_prefix_expr " + 1 2 3" = raise ValueError "Invalid expression." /\
  EvalPrefix.eval_prefix_expr "3 4" = Ok (PInt 3).
Proof. repeat split; vm_compute; reflexivity. Qed.



(** ** The monad and the [except] clauses *)

Lemma bind_assoc : forall (A B C : Type) (m : result A) (f : A -> result B)
  (g : B -> result C),
  bind (bind m f) g = bind m (fun x => bind (f x) g).
Proof. intros A B C [a|e|] f g; reflexivity. Qed.

Lemma rpn_reraise_value : forall (A B : Type) (m : result A) (f : A -> B),
  EvalRpn.reraise (x <- m ;; Ok (f x)) = (x <- EvalRpn.reraise m ;; Ok (f x)).
Proof. intros A B [a|[[] arg]|] f; reflexivity. Qed.

Lemma prefix_reraise_value : forall (A B : Type) (m : result A) (f : A -> B),
  EvalPrefix.reraise (x <- m ;; Ok (f x)) = (x <- EvalPrefix.reraise m ;; Ok (f x)).
Proof. intros A B [a|[[] arg]|] f; reflexivity. Qed.

Lemma rpn_reraise_ok : forall (A : Type) (m : result A) (v : A),
  EvalRpn.reraise m = Ok v <-> m = Ok v.
Proof.
  intros A [a|[[] arg]|] v; simpl; split; intros H; try exact H; discriminate.
Qed.

Lemma prefix_reraise_ok : forall (A : Type) (m : result A) (v : A),
  EvalPrefix.reraise m = Ok v <-> m = Ok v.
Proof.
  intros A [a|[[] arg]|] v; simpl; split; intros H; try exact H; discriminate.
Qed.

(** ** The postfix stack engine *)

Lemma rpn_loop_app : forall swap_func pre g operands,
  EvalRpn.loop swap_func (pre ++ g) operands =
  (operands' <- EvalRpn.loop swap_func pre operands ;;
   EvalRpn.loop swap_func g operands').
Proof.
  intros swap_func pre g. induction pre as [|r pre IH]; intros operands.
  - reflexivity.
  - simpl. destruct r as [tok|e|]; simpl; try reflexivity.
    destruct (EvalRpn.step swap_func operands tok) as [ops|e|]; simpl;
      try reflexivity.
    apply IH.
Qed.

(** The engine applies an operator to the two topmost operands. *)
Lemma rpn_step_operator : forall swap_func a b rest tok,
  EvalRpn.contains tok = true ->
  EvalRpn.step swap_func (a :: b :: rest) tok =
  (v <- EvalRpn.reraise (EvalRpn._eval_op (fst (swap_func a b)) (snd (swap_func a b)) tok) ;;
   Ok (v :: rest)).
Proof.
  intros swap_func a b rest tok H. unfold EvalRpn.step. rewrite H.
  cbn [pop bind]. destruct (swap_func a b) as [lhs rhs]. cbn [fst snd].
  apply rpn_reraise_value.
Qed.

(** C5: in postfix evaluation an operator token pops the right operand
    first and the left operand second, which are the two values pushed
    last, in reverse order.  With fewer than two operands on the stack the
    evaluation fails with InvalidExpression, whatever tokens follow.  After the last token a stack
    of exactly one value gives the result, and a stack of more than one
    value, as after "1 2 3 +", fails with InvalidExpression. *)
Theorem postfix_operator_discipline : forall (tok : pyobj) (operands : list pyobj),
  EvalRpn.contains tok = true ->
  (forall rhs lhs rest, operands = rhs :: lhs :: rest ->
     EvalRpn.step EvalRpn._postfix_swap operands tok =
     (v <- EvalRpn.reraise (EvalRpn._eval_op lhs rhs tok) ;; Ok (v :: rest))) /\
  ((List.length operands < 2)%nat ->
     EvalRpn.step EvalRpn._postfix_swap operands tok =
       raise IndexError "Invalid expression." /\
     forall before after,
       EvalRpn.loop EvalRpn._postfix_swap before [] = Ok operands ->
       EvalRpn._eval_expr (IGen (before ++ Ok tok :: after)) EvalRpn._postfix_swap =
       raise IndexError "Invalid expression.") /\
  (forall tokens,
     EvalRpn.loop EvalRpn._postfix_swap (iter tokens) [] = Ok operands ->
     ((1 < List.length operands)%nat ->
        EvalRpn._eval_expr tokens EvalRpn._postfix_swap =
        raise ValueError "Invalid expression.") /\
     (forall v, operands = [v] ->
        EvalRpn._eval_expr tokens EvalRpn._postfix_swap = Ok v)) /\
  EvalRpn.eval_postfix_expr "1 2 3 +" = raise ValueError "Invalid expression.".
Proof.
  intros tok operands Htok. split; [|split; [|split]].
  - intros rhs lhs rest ->. apply rpn_step_operator. exact Htok.
  - intros Hlen.
    assert (Hstep : EvalRpn.step EvalRpn._postfix_swap operands tok =
                    raise IndexError "Invalid expression.").
    { unfold EvalRpn.step. rewrite Htok.
      destruct operands as [|a [|b rest]]; simpl in Hlen; try lia; reflexivity. }
    split; [exact Hstep|].
    intros before after Hrun. unfold EvalRpn._eval_expr. cbn [iter].
    rewrite rpn_loop_app, Hrun. cbn [bind EvalRpn.loop]. rewrite Hstep.
    reflexivity.
  - intros tokens H. split.
    + intros Hlen. unfold EvalRpn._eval_expr. rewrite H. simpl.
      destruct operands as [|a [|b rest]]; simpl in Hlen; try lia; reflexivity.
    + intros v ->. unfold EvalRpn._eval_expr. rewrite H. reflexivity.
  - vm_compute. reflexivity.
Qed.

(** C5's theorem at the token "+" and the stack of "1 2 3". *)
Lemma postfix_operator_discipline_witness :
  EvalRpn.contains (PStr "+") = true /\
  EvalRpn.step EvalRpn._postfix_swap [PInt 3; PInt 2; PInt 1] (PStr "+") =
  Ok [PInt 5; PInt 1].
Proof.
  split; [reflexivity|].
  exact (proj1 (postfix_operator_discipline (PStr "+") [PInt 3; PInt 2; PInt 1] eq_refl)
           (PInt 3) (PInt 2) [PInt 1] eq_refl).
Defined.

(** ** Division by zero *)

Lemma float_of_zero : float_of_int 0 = Ok (S754_zero false).
Proof. reflexivity. Qed.

(** The three dividing operators test the divisor before anything else
    than the conversion of their operands. *)
Lemma dividing_by_zero : forall op lhs rhs,
  divides op -> is_zero rhs = true -> convertible lhs rhs ->
  EvalRpn._eval_op lhs rhs (PStr op) = zero_division.
Proof.
  intros op lhs rhs Hop Hz Hc.
  unfold is_zero in Hz. unfold convertible in Hc.
  destruct (as_num rhs) as [b|] eqn:Hb; [|discriminate].
  destruct (as_num lhs) as [a|] eqn:Ha; [|contradiction].
  assert (Hdiv : truediv a b = zero_division /\ floordiv a b = zero_division
                 /\ mod_ a b = zero_division).
  { destruct a as [x|fa], b as [y|fb]; simpl in Hz;
      unfold truediv, floordiv, mod_, float_floordiv, float_mod, to_float.
    - rewrite Hz. repeat split.
    - destruct Hc as [f ->]. cbn [bind]. rewrite Hz. repeat split.
    - apply Z.eqb_eq in Hz. subst y. rewrite float_of_zero. repeat split.
    - cbn [bind]. rewrite Hz. repeat split. }
  destruct Hdiv as [H1 [H2 H3]].
  destruct Hop as [-> | [-> | ->]];
    unfold EvalRpn._eval_op;
    cbn [EvalRpn.getitem EvalRpn.lookup EvalRpn.OPCODES String.eqb Ascii.eqb Bool.eqb bind];
    unfold operator_truediv, operator_floordiv, operator_mod, binop;
    rewrite Ha, Hb; assumption.
Qed.

(** ** The forward scan *)

(** The [while] loop is the repetition of its body. *)
Lemma while_loop_unfold : forall st,
  EvalPrefix.while_loop st =
  match EvalPrefix.while_step st with
  | None => Ok st
  | Some r => st' <- r ;; EvalPrefix.while_loop st'
  end.
Proof.
  intros [ts [|c below]]; [reflexivity|].
  unfold EvalPrefix.while_loop, EvalPrefix.while_step.
  cbn [EvalPrefix.count_stack EvalPrefix.token_stack].
  destruct below as [|c' below']; simpl; destruct (c =? 0); try reflexivity;
    destruct (EvalPrefix.reduce ts) as [ts'|e|]; reflexivity.
Qed.

Lemma while_loop_open : forall ts c cs,
  c <> 0 ->
  EvalPrefix.while_loop (EvalPrefix.State ts (c :: cs)) =
  Ok (EvalPrefix.State ts (c :: cs)).
Proof.
  intros ts c cs Hc. rewrite while_loop_unfold. unfold EvalPrefix.while_step.
  cbn [EvalPrefix.count_stack].
  destruct (c =? 0) eqn:E; [apply Z.eqb_eq in E; contradiction|reflexivity].
Qed.

(** A completed operator is reduced and the loop goes on with the count
    under it decremented. *)
Lemma while_loop_reduce : forall rhs lhs op ts cs,
  EvalPrefix.while_loop (EvalPrefix.State (rhs :: lhs :: op :: ts) (0 :: cs)) =
  (v <- EvalPrefix.reraise (EvalPrefix._eval_op lhs rhs op) ;;
   EvalPrefix.while_loop (EvalPrefix.State (v :: ts) (EvalPrefix.decrement cs))).
Proof.
  intros rhs lhs op ts cs. rewrite while_loop_unfold.
  unfold EvalPrefix.while_step, EvalPrefix.reduce.
  cbn [EvalPrefix.count_stack EvalPrefix.token_stack Z.eqb pop bind].
  rewrite prefix_reraise_value.
  destruct (EvalPrefix.reraise (EvalPrefix._eval_op lhs rhs op)); reflexivity.
Qed.

Lemma number_is_no_operator : forall n,
  is_number n = true -> EvalPrefix.contains n = false.
Proof. intros [z|b|f|s] H; try reflexivity; discriminate. Qed.

(** A token that does not find the token stack empty is pushed without a
    look at the rest of the stream. *)
Lemma push_number : forall tokens n pending x ts cs,
  is_number n = true ->
  EvalPrefix.push_token tokens n pending (EvalPrefix.State (x :: ts) cs) =
  Ok (EvalPrefix.State (n :: x :: ts) (EvalPrefix.decrement cs), false).
Proof.
  intros tokens n pending x ts cs Hn. unfold EvalPrefix.push_token.
  rewrite Hn. reflexivity.
Qed.

Lemma push_operator : forall tokens op pending st,
  EvalPrefix.contains (PStr op) = true ->
  EvalPrefix.push_token tokens (PStr op) pending st =
  Ok (EvalPrefix.State (PStr op :: EvalPrefix.token_stack st)
        (2 :: EvalPrefix.count_stack st), false).
Proof.
  intros tokens op pending st Hop. unfold EvalPrefix.push_token.
  cbn [is_number]. rewrite Hop. reflexivity.
Qed.

(** The forward scan over the tokens of a well-formed expression, from
    stacks that are not empty or for an expression that starts with an
    operator: the value of the expression is pushed as one operand. *)
Lemma forward_run : forall e tokens rest st,
  well_formed e ->
  EvalPrefix.token_stack st <> [] \/ (exists op l r, e = Bin op l r) ->
  EvalPrefix.loop tokens (map Ok (prefix_tokens e) ++ rest) st =
  (v <- outcome_forward e ;;
   st' <- EvalPrefix.while_loop
            (EvalPrefix.State (v :: EvalPrefix.token_stack st)
               (EvalPrefix.decrement (EvalPrefix.count_stack st))) ;;
   EvalPrefix.loop tokens rest st').
Proof.
  induction e as [n | op l IHl r IHr]; intros tokens rest [ts cs] Hwf Hst.
  - destruct Hst as [Hts | [op [l [r Habs]]]]; [|discriminate].
    cbn [EvalPrefix.token_stack] in Hts.
    destruct ts as [|x ts]; [contradiction|].
    simpl in Hwf. simpl. unfold EvalPrefix.body.
    rewrite push_number by exact Hwf. cbn [bind].
    destruct (EvalPrefix.while_loop _) as [st'|e|]; reflexivity.
  - destruct Hwf as [Hop [Hl Hr]].
    cbn [prefix_tokens map app]. rewrite map_app, <- app_assoc.
    cbn [EvalPrefix.loop bind]. unfold EvalPrefix.body.
    rewrite push_operator by exact Hop. cbn [bind].
    cbn [EvalPrefix.token_stack EvalPrefix.count_stack].
    rewrite while_loop_open by discriminate. cbn [bind].
    rewrite IHl; [|exact Hl|left; discriminate].
    cbn [outcome_forward EvalPrefix.token_stack EvalPrefix.count_stack
         EvalPrefix.decrement].
    rewrite bind_assoc.
    destruct (outcome_forward l) as [a|e|]; cbn [bind]; try reflexivity.
    replace (2 - 1) with 1 by reflexivity.
    rewrite while_loop_open by discriminate. cbn [bind].
    rewrite IHr; [|exact Hr|left; discriminate].
    cbn [EvalPrefix.token_stack EvalPrefix.count_stack EvalPrefix.decrement].
    rewrite bind_assoc.
    destruct (outcome_forward r) as [b|e|]; cbn [bind]; try reflexivity.
    replace (1 - 1) with 0 by reflexivity.
    rewrite while_loop_reduce. rewrite bind_assoc. reflexivity.
Qed.

(** On the tokens of a well-formed expression the forward scan gives the
    outcome of the expression, operands taken left to right. *)
Lemma forward_scan_outcome : forall e,
  well_formed e ->
  EvalPrefix._eval_expr (IGen (map Ok (prefix_tokens e))) = outcome_forward e.
Proof.
  intros e Hwf. unfold EvalPrefix._eval_expr. cbn [iter].
  destruct e as [n | op l r].
  - simpl in Hwf. simpl. unfold EvalPrefix.body, EvalPrefix.push_token.
    rewrite Hwf. reflexivity.
  - rewrite <- (app_nil_r (map Ok (prefix_tokens (Bin op l r)))).
    rewrite forward_run; [|exact Hwf|right; eauto].
    cbn [EvalPrefix.token_stack EvalPrefix.count_stack EvalPrefix.decrement].
    destruct (outcome_forward (Bin op l r)) as [v|e|]; reflexivity.
Qed.

(** ** The stack engine over reversed tokens *)

Lemma backward_run : forall e rest operands,
  well_formed e ->
  EvalRpn.loop EvalRpn._prefix_swap (map Ok (rev (prefix_tokens e)) ++ rest) operands =
  (v <- outcome_backward e ;;
   EvalRpn.loop EvalRpn._prefix_swap rest (v :: operands)).
Proof.
  induction e as [n | op l IHl r IHr]; intros rest operands Hwf.
  - simpl in Hwf. simpl. unfold EvalRpn.step.
    rewrite <- same_contains, number_is_no_operator by exact Hwf. reflexivity.
  - destruct Hwf as [Hop [Hl Hr]].
    cbn [prefix_tokens rev]. rewrite rev_app_distr.
    rewrite !map_app, <- !app_assoc.
    rewrite IHr by exact Hr. cbn [outcome_backward]. rewrite bind_assoc.
    destruct (outcome_backward r) as [b|e|]; cbn [bind]; try reflexivity.
    rewrite IHl by exact Hl. rewrite bind_assoc.
    destruct (outcome_backward l) as [a|e|]; cbn [bind]; try reflexivity.
    cbn [map app EvalRpn.loop bind].
    rewrite rpn_step_operator by exact Hop.
    cbn [EvalRpn._prefix_swap fst snd]. rewrite bind_assoc. reflexivity.
Qed.

Lemma backward_scan_outcome : forall e,
  well_formed e ->
  EvalRpn._eval_expr (IList (rev (prefix_tokens e))) EvalRpn._prefix_swap =
  outcome_backward e.
Proof.
  intros e Hwf. unfold EvalRpn._eval_expr. cbn [iter].
  rewrite <- (app_nil_r (map Ok (rev (prefix_tokens e)))).
  rewrite backward_run by exact Hwf.
  destruct (outcome_backward e) as [v|x|]; reflexivity.
Qed.

(** The order in which the operands are evaluated does not change the
    value. *)
Lemma outcomes_agree : forall e v,
  outcome_forward e = Ok v <-> outcome_backward e = Ok v.
Proof.
  induction e as [n | op l IHl r IHr]; intros v; [reflexivity|].
  cbn [outcome_forward outcome_backward]. split; intros H.
  - destruct (outcome_forward l) as [a|x|]; cbn [bind] in H; try discriminate.
    destruct (outcome_forward r) as [b|y|]; cbn [bind] in H; try discriminate.
    rewrite (proj1 (IHr b) eq_refl), (proj1 (IHl a) eq_refl). cbn [bind].
    apply (proj2 (rpn_reraise_ok _ _ _)).
    apply (proj1 (prefix_reraise_ok _ _ _)) in H.
    rewrite <- same_eval_op. exact H.
  - destruct (outcome_backward r) as [b|y|]; cbn [bind] in H; try discriminate.
    destruct (outcome_backward l) as [a|x|]; cbn [bind] in H; try discriminate.
    rewrite (proj2 (IHl a) eq_refl), (proj2 (IHr b) eq_refl). cbn [bind].
    apply (proj2 (prefix_reraise_ok _ _ _)).
    apply (proj1 (rpn_reraise_ok _ _ _)) in H.
    rewrite same_eval_op. exact H.
Qed.

(** ** The two prefix strategies on an expression *)

(** On the prefix notation of an expression the forward scan returns a
    value exactly when the stack engine with the swapped pop order, run
    over the reversed tokens, returns it. *)
Lemma well_formed_agreement : forall (e : expr) (v : pyobj),
  well_formed e ->
  (EvalPrefix._eval_expr (IGen (map Ok (prefix_tokens e))) = Ok v <->
   EvalRpn._eval_expr (IList (rev (prefix_tokens e))) EvalRpn._prefix_swap = Ok v).
Proof.
  intros e v Hwf.
  rewrite forward_scan_outcome, backward_scan_outcome by exact Hwf.
  apply outcomes_agree.
Qed.

(** ** Division by zero, continued *)

Lemma divides_known : forall op, divides op -> EvalPrefix.contains (PStr op) = true.
Proof. intros op [-> | [-> | ->]]; reflexivity. Qed.

(** C6, as stated, fails: the postfix expression "10 400 ^ 0.0 /" applies
    [/] to the int 10 ** 400 and the zero 0.0; the conversion of the int
    comes before the test of the divisor and raises [OverflowError], which
    no [except] clause catches.  The same holds for the forward scan. *)
Lemma huge_dividend_overflows :
  EvalRpn.loop EvalRpn._postfix_swap (EvalRpn._tokenize_expr "10 400 ^ 0.0") [] =
    Ok [PFloat (S754_zero false); PInt (10 ^ 400)] /\
  EvalRpn.eval_postfix_expr "10 400 ^ 0.0 /" =
    raise OverflowError "int too large to convert to float" /\
  EvalPrefix.eval_prefix_expr "/ ^ 10 400 0.0" =
    raise OverflowError "int too large to convert to float".
Proof. repeat split; vm_compute; reflexivity. Qed.

(** C6, amended: when [/], [//] or [%] is applied to a zero right operand
    and a left operand that is a number, and the left operand is not an
    int too large for a float next to a float zero, the evaluation fails
    with DivisionByZero: the stack engine in either pop order, the whole
    postfix evaluation whatever tokens follow, the [while] loop of the
    forward scan at the completed operator, and the whole forward scan
    over an expression whose operands evaluate to these two values,
    whatever follows it.  No value, in particular no
    infinity, is returned. *)
Theorem division_by_zero : forall (op : string) (lhs rhs : pyobj),
  divides op -> is_zero rhs = true -> convertible lhs rhs ->
  (forall rest,
     EvalRpn.step EvalRpn._postfix_swap (rhs :: lhs :: rest) (PStr op) =
     raise ZeroDivisionError "Can not divide by zero.") /\
  (forall rest,
     EvalRpn.step EvalRpn._prefix_swap (lhs :: rhs :: rest) (PStr op) =
     raise ZeroDivisionError "Can not divide by zero.") /\
  (forall before after rest,
     EvalRpn.loop EvalRpn._postfix_swap before [] = Ok (rhs :: lhs :: rest) ->
     EvalRpn._eval_expr (IGen (before ++ Ok (PStr op) :: after)) EvalRpn._postfix_swap =
     raise ZeroDivisionError "Can not divide by zero.") /\
  (forall ts cs,
     EvalPrefix.while_loop (EvalPrefix.State (rhs :: lhs :: PStr op :: ts) (0 :: cs)) =
     raise ValueError "Can not divide by zero.") /\
  (forall l r after,
     well_formed l -> well_formed r ->
     EvalPrefix._eval_expr (IGen (map Ok (prefix_tokens l))) = Ok lhs ->
     EvalPrefix._eval_expr (IGen (map Ok (prefix_tokens r))) = Ok rhs ->
     EvalPrefix._eval_expr (IGen (map Ok (prefix_tokens (Bin op l r)) ++ after)) =
     raise ValueError "Can not divide by zero.") /\
  EvalRpn.eval_postfix_expr "102 0 /" =
    raise ZeroDivisionError "Can not divide by zero.".
Proof.
  intros op lhs rhs Hop Hz Hc.
  pose proof (dividing_by_zero op lhs rhs Hop Hz Hc) as Hdiv.
  assert (Hknown := divides_known op Hop).
  assert (Hpost : forall rest,
     EvalRpn.step EvalRpn._postfix_swap (rhs :: lhs :: rest) (PStr op) =
     raise ZeroDivisionError "Can not divide by zero.").
  { intros rest. rewrite rpn_step_operator by exact Hknown.
    cbn [EvalRpn._postfix_swap fst snd]. rewrite Hdiv. reflexivity. }
  split; [exact Hpost|]. split; [|split; [|split; [|split]]].
  - intros rest. rewrite rpn_step_operator by exact Hknown.
    cbn [EvalRpn._prefix_swap fst snd]. rewrite Hdiv. reflexivity.
  - intros before after rest Hrun. unfold EvalRpn._eval_expr. cbn [iter].
    rewrite rpn_loop_app, Hrun. cbn [bind EvalRpn.loop].
    rewrite Hpost. reflexivity.
  - intros ts cs. rewrite while_loop_reduce, same_eval_op, Hdiv. reflexivity.
  - intros l r after Hl Hr El Er.
    rewrite forward_scan_outcome in El by exact Hl.
    rewrite forward_scan_outcome in Er by exact Hr.
    unfold EvalPrefix._eval_expr. cbn [iter].
    rewrite forward_run; [|simpl; auto|right; eauto].
    cbn [outcome_forward]. rewrite El, Er. cbn [bind].
    rewrite same_eval_op, Hdiv. reflexivity.
  - vm_compute. reflexivity.
Qed.

(** C6's theorem at 102 / 0. *)
Lemma division_by_zero_witness :
  divides "/" /\ is_zero (PInt 0) = true /\ convertible (PInt 102) (PInt 0) /\
  EvalRpn.step EvalRpn._postfix_swap [PInt 0; PInt 102] (PStr "/") =
    raise ZeroDivisionError "Can not divide by zero.".
Proof.
  assert (Hop : divides "/") by (left; reflexivity).
  assert (Hc : convertible (PInt 102) (PInt 0)) by exact I.
  split; [exact Hop|]. split; [reflexivity|]. split; [exact Hc|].
  exact (proj1 (division_by_zero "/" (PInt 102) (PInt 0) Hop eq_refl Hc) []).
Defined.

(** ** What the operators of the table return and raise *)

Lemma binop_outcome : forall f,
  (forall a b, arithmetic_outcome (f a b)) ->
  forall lhs rhs, arithmetic_outcome (binop f lhs rhs).
Proof.
  intros f Hf lhs rhs. unfold binop.
  destruct (as_num lhs); [|exact I]. destruct (as_num rhs); [|exact I].
  apply Hf.
Qed.

Lemma to_float_outcome : forall n e, to_float n = Raise e ->
  exists arg, e = Exn OverflowError arg.
Proof.
  intros [z|f] e; unfold to_float, float_of_int, raise; [|discriminate].
  destruct (binary_normalize prec emax z 0 false); intros H;
    try discriminate.
  injection H as <-. eexists; reflexivity.
Qed.

(** Two operands converted to float, then a float operation. *)
Lemma float_operation_outcome : forall a b (k : spec_float -> spec_float -> result pyobj),
  (forall fa fb, arithmetic_outcome (k fa fb)) ->
  arithmetic_outcome (fa <- to_float a ;; fb <- to_float b ;; k fa fb).
Proof.
  intros a b k Hk.
  destruct (to_float a) as [fa|e|] eqn:Ea; cbn [bind].
  - destruct (to_float b) as [fb|e|] eqn:Eb; cbn [bind].
    + apply Hk.
    + apply to_float_outcome in Eb. destruct Eb as [arg ->]. right; reflexivity.
    + exact I.
  - apply to_float_outcome in Ea. destruct Ea as [arg ->]. right; reflexivity.
  - exact I.
Qed.

Lemma arith_outcome : forall iop fop a b, arithmetic_outcome (arith iop fop a b).
Proof.
  intros iop fop a b. unfold arith.
  destruct a as [x|fa], b as [y|fb]; try reflexivity;
    apply float_operation_outcome; reflexivity.
Qed.

Lemma float_floordiv_outcome : forall fa fb, arithmetic_outcome (float_floordiv fa fb).
Proof.
  intros fa fb. unfold float_floordiv. destruct (float_is_zero fb); [left|]; reflexivity.
Qed.

Lemma float_mod_outcome : forall fa fb, arithmetic_outcome (float_mod fa fb).
Proof.
  intros fa fb. unfold float_mod. destruct (float_is_zero fb); [left|]; reflexivity.
Qed.

Lemma float_pow_outcome : forall fa fb, arithmetic_outcome (float_pow fa fb).
Proof.
  intros fa fb. unfold float_pow.
  repeat match goal with
    | |- arithmetic_outcome (if ?c then _ else _) => destruct c
    | |- arithmetic_outcome (match ?x with _ => _ end) => destruct x
    end;
    first [reflexivity | exact I | left; reflexivity].
Qed.

Lemma truediv_outcome : forall a b, arithmetic_outcome (truediv a b).
Proof.
  intros a b. unfold truediv.
  assert (Hk : forall fa fb, arithmetic_outcome
     (if float_is_zero fb then zero_division else Ok (PFloat (SFdiv prec emax fa fb)))).
  { intros fa fb. destruct (float_is_zero fb); [left|]; reflexivity. }
  destruct a as [x|fa], b as [y|fb];
    try (apply float_operation_outcome; exact Hk).
  destruct (y =? 0); [left; reflexivity|].
  destruct (ratio_to_float x y); try reflexivity. right; reflexivity.
Qed.

Lemma floordiv_outcome : forall a b, arithmetic_outcome (floordiv a b).
Proof.
  intros a b. unfold floordiv.
  destruct a as [x|fa], b as [y|fb];
    try (apply float_operation_outcome; exact float_floordiv_outcome).
  destruct (y =? 0); [left|]; reflexivity.
Qed.

Lemma mod_outcome : forall a b, arithmetic_outcome (mod_ a b).
Proof.
  intros a b. unfold mod_.
  destruct a as [x|fa], b as [y|fb];
    try (apply float_operation_outcome; exact float_mod_outcome).
  destruct (y =? 0); [left|]; reflexivity.
Qed.

Lemma pow_outcome : forall a b, arithmetic_outcome (pow a b).
Proof.
  intros a b. unfold pow.
  destruct a as [x|fa], b as [y|fb];
    try (apply float_operation_outcome; exact float_pow_outcome).
  destruct (0 <=? y); [reflexivity|].
  apply (float_operation_outcome (NInt x) (NInt y)). exact float_pow_outcome.
Qed.

(** Every entry of the table takes two numbers to a number, raises
    [ZeroDivisionError] or [OverflowError], or leaves the model. *)
Lemma table_outcome : forall op f lhs rhs,
  EvalRpn.lookup op EvalRpn.OPCODES = Some f ->
  arithmetic_outcome (f lhs rhs).
Proof.
  intros op f lhs rhs H. unfold EvalRpn.OPCODES in H. cbn [EvalRpn.lookup] in H.
  repeat match type of H with
    | (if ?c then _ else _) = _ =>
        destruct c; [injection H as <-;
                     apply binop_outcome; intros;
                     first [apply arith_outcome | apply truediv_outcome
                           | apply floordiv_outcome | apply mod_outcome
                           | apply pow_outcome | reflexivity] |]
    end.
  discriminate.
Qed.

Lemma eval_op_outcome : forall lhs rhs op,
  EvalRpn.contains op = true ->
  arithmetic_outcome (EvalRpn._eval_op lhs rhs op).
Proof.
  intros lhs rhs [z|b|f|s] H; try discriminate.
  unfold EvalRpn._eval_op, EvalRpn.getitem. unfold EvalRpn.contains in H.
  destruct (EvalRpn.lookup s EvalRpn.OPCODES) as [g|] eqn:E; [|discriminate].
  cbn [bind]. exact (table_outcome s g lhs rhs E).
Qed.

(** ** The two stacks of the forward scan *)

Lemma fits_counts : forall ts cs,
  fits ts cs -> Forall (fun c => c = 1 \/ c = 2) cs.
Proof.
  induction 1; constructor; auto.
Qed.

Lemma fits_while_counts : forall ts cs,
  fits_while ts cs ->
  Forall (fun c => c = 0 \/ c = 1 \/ c = 2) cs /\
  Forall (fun c => c = 1 \/ c = 2) (tl cs).
Proof.
  intros ts cs H. destruct H as [ts cs H | b a op ts cs Hb Ha Hop H].
  - apply fits_counts in H. split.
    + eapply Forall_impl; [|exact H]. intros c [-> | ->]; auto.
    + destruct cs; [constructor|]. inversion H; assumption.
  - apply fits_counts in H. split; [|exact H].
    constructor; [auto|]. eapply Forall_impl; [|exact H]. intros c [-> | ->]; auto.
Qed.

(** An operand pushed on fitting stacks. *)
Lemma fits_operand : forall v ts cs,
  is_number v = true -> fits ts cs ->
  fits_while (v :: ts) (EvalPrefix.decrement cs).
Proof.
  intros v ts cs Hv H. destruct H as [base Hbase | op ts cs Hop H | a op ts cs Ha Hop H].
  - apply fits_open. constructor. constructor; assumption.
  - apply fits_open. simpl. apply fits_one; assumption.
  - simpl. apply fits_zero; assumption.
Qed.

Lemma push_token_fits : forall tokens token pending st st1 consumed,
  fits_at ForHead st ->
  EvalPrefix.push_token tokens token pending st = Ok (st1, consumed) ->
  fits_at WhileTest st1.
Proof.
  intros tokens token pending [ts cs] st1 consumed Hfit H.
  unfold EvalPrefix.push_token in H. simpl in Hfit.
  cbn [EvalPrefix.token_stack EvalPrefix.count_stack] in H.
  destruct (is_number token) eqn:Hn.
  - match type of H with (bind ?m _) = _ => destruct m as [c|e|] end;
      cbn [bind] in H; try discriminate.
    injection H as <- <-. simpl. apply fits_operand; assumption.
  - destruct token as [z|b|f|op]; try discriminate.
    destruct (EvalPrefix.contains (PStr op)) eqn:Hop; [|discriminate].
    injection H as <- <-. simpl. apply fits_open. apply fits_two; assumption.
Qed.

Lemma while_step_exit : forall st,
  fits_at WhileTest st -> EvalPrefix.while_step st = None -> fits_at ForHead st.
Proof.
  intros [ts cs] Hfit H. simpl in *.
  destruct Hfit as [ts cs Hfit | b a op ts cs Hb Ha Hop Hfit]; [exact Hfit|].
  discriminate.
Qed.

(** At a zero count the stacks hold two operands over their operator, and
    the turn of the [while] loop replaces the three by the result. *)
Lemma while_step_zero : forall st cs,
  fits_at WhileTest st -> EvalPrefix.count_stack st = 0 :: cs ->
  exists rhs lhs op ts,
    EvalPrefix.token_stack st = rhs :: lhs :: PStr op :: ts /\
    is_number rhs = true /\ is_number lhs = true /\
    EvalPrefix.contains (PStr op) = true /\
    fits ts cs /\
    EvalPrefix.while_step st =
      Some (v <- EvalPrefix.reraise (EvalPrefix._eval_op lhs rhs (PStr op)) ;;
            Ok (EvalPrefix.State (v :: ts) (EvalPrefix.decrement cs))).
Proof.
  intros [ts0 cs0] cs Hfit Hcs. simpl in *. subst cs0.
  inversion Hfit as [ts' cs' Hf | b a op ts cs' Hb Ha Hop Hf]; subst.
  - apply fits_counts in Hf. inversion Hf as [|c l [Hc | Hc] Hl]; discriminate Hc.
  - exists b, a, op, ts. repeat (split; [assumption || reflexivity|]).
    unfold EvalPrefix.while_step, EvalPrefix.reduce.
    cbn [EvalPrefix.count_stack EvalPrefix.token_stack Z.eqb pop bind].
    rewrite prefix_reraise_value.
    destruct (EvalPrefix.reraise (EvalPrefix._eval_op a b (PStr op))); reflexivity.
Qed.

Lemma while_step_fits : forall st st',
  fits_at WhileTest st -> EvalPrefix.while_step st = Some (Ok st') ->
  fits_at WhileTest st'.
Proof.
  intros st st' Hfit H.
  destruct (EvalPrefix.count_stack st) as [|c cs] eqn:Hcs.
  { unfold EvalPrefix.while_step in H. rewrite Hcs in H. discriminate. }
  assert (c = 0) as ->.
  { unfold EvalPrefix.while_step in H. rewrite Hcs in H.
    destruct (c =? 0) eqn:E; [apply Z.eqb_eq; exact E|discriminate]. }
  destruct (while_step_zero st cs Hfit Hcs)
    as [rhs [lhs [op [ts [Hts [Hr [Hl [Hop [Hfits Hstep]]]]]]]]].
  rewrite Hstep in H. injection H as H.
  pose proof (eval_op_outcome lhs rhs (PStr op) Hop) as Hout.
  rewrite <- same_eval_op in Hout.
  destruct (EvalPrefix._eval_op lhs rhs (PStr op)) as [v|[[] arg]|];
    cbn [EvalPrefix.reraise raise bind] in H; try discriminate.
  injection H as <-. simpl. apply fits_operand; assumption.
Qed.

(** The stacks fit together wherever the evaluation is. *)
Lemma reaches_fits : forall tokens p st, reaches tokens p st -> fits_at p st.
Proof.
  intros tokens p st H. induction H.
  - simpl. constructor. constructor.
  - eapply push_token_fits; eassumption.
  - eapply while_step_fits; eassumption.
  - apply while_step_exit; assumption.
Qed.

(** The [while] loop ends at the head of the [for] loop. *)
Lemma while_loop_reaches : forall tokens n st st',
  (List.length (EvalPrefix.count_stack st) <= n)%nat ->
  reaches tokens WhileTest st ->
  EvalPrefix.while_loop st = Ok st' ->
  reaches tokens ForHead st' /\ EvalPrefix.while_step st' = None.
Proof.
  intros tokens n. induction n as [|n IH]; intros st st' Hlen Hreach H;
    rewrite while_loop_unfold in H;
    destruct (EvalPrefix.while_step st) as [r|] eqn:Hstep.
  - unfold EvalPrefix.while_step in Hstep.
    destruct (EvalPrefix.count_stack st); [discriminate|simpl in Hlen; lia].
  - injection H as <-. split; [apply reaches_exit; assumption|assumption].
  - destruct r as [st1|e|]; cbn [bind] in H; try discriminate.
    apply (IH st1 st'); [|eapply reaches_reduce; eassumption|exact H].
    unfold EvalPrefix.while_step in Hstep.
    destruct (EvalPrefix.count_stack st) as [|c cs]; [discriminate|].
    destruct (c =? 0); [|discriminate].
    destruct (EvalPrefix.reduce (EvalPrefix.token_stack st)); cbn [bind] in Hstep;
      try discriminate.
    injection Hstep as <-. simpl in *.
    destruct cs; simpl in *; lia.
  - injection H as <-. split; [apply reaches_exit; assumption|assumption].
Qed.

(** The evaluator only goes through the states of [reaches]. *)
Lemma loop_reaches : forall tokens pending st st',
  reaches tokens ForHead st ->
  EvalPrefix.loop tokens pending st = Ok st' ->
  reaches tokens ForHead st'.
Proof.
  intros tokens pending. induction pending as [|r rest IH]; intros st st' Hreach H.
  - injection H as <-. exact Hreach.
  - cbn [EvalPrefix.loop] in H. destruct r as [token|e|]; cbn [bind] in H;
      try discriminate.
    unfold EvalPrefix.body in H.
    destruct (EvalPrefix.push_token tokens token rest st) as [[st1 consumed]|e|] eqn:Hpush;
      cbn [bind] in H; try discriminate.
    destruct (EvalPrefix.while_loop st1) as [st2|e|] eqn:Hwhile;
      cbn [bind] in H; try discriminate.
    assert (Hst2 : reaches tokens ForHead st2).
    { eapply while_loop_reaches; [apply Nat.le_refl| |exact Hwhile].
      eapply reaches_push; eassumption. }
    destruct consumed; [injection H as <-; exact Hst2|].
    apply (IH st2 st' Hst2 H).
Qed.

(** C8: wherever the test of the [while] loop of the forward scan is
    evaluated, every entry of the count stack is 0, 1 or 2 and only the top
    one can be 0.  A top entry 0 is popped at once: the token stack then
    holds the right operand over the left operand over their operator,
    pushed in the order operator, left, right; the three are replaced by
    the result, the entry below, if any, is decremented, and the loop
    tests again.  When the loop stops no entry is 0, and this is how the
    [for] loop finds the stacks. *)
Theorem count_stack_invariant : forall (tokens : iterable) (st : EvalPrefix.state),
  reaches tokens WhileTest st ->
  Forall (fun c => c = 0 \/ c = 1 \/ c = 2) (EvalPrefix.count_stack st) /\
  Forall (fun c => c = 1 \/ c = 2) (tl (EvalPrefix.count_stack st)) /\
  (forall cs, EvalPrefix.count_stack st = 0 :: cs ->
     exists rhs lhs op ts,
       EvalPrefix.token_stack st = rhs :: lhs :: PStr op :: ts /\
       EvalPrefix.contains (PStr op) = true /\
       EvalPrefix.while_step st =
         Some (v <- EvalPrefix.reraise (EvalPrefix._eval_op lhs rhs (PStr op)) ;;
               Ok (EvalPrefix.State (v :: ts) (EvalPrefix.decrement cs))) /\
       EvalPrefix.while_loop st =
         (v <- EvalPrefix.reraise (EvalPrefix._eval_op lhs rhs (PStr op)) ;;
          EvalPrefix.while_loop (EvalPrefix.State (v :: ts) (EvalPrefix.decrement cs)))) /\
  (forall st', EvalPrefix.while_step st = Some (Ok st') -> reaches tokens WhileTest st') /\
  (forall st', EvalPrefix.while_loop st = Ok st' ->
     reaches tokens ForHead st' /\
     Forall (fun c => c = 1 \/ c = 2) (EvalPrefix.count_stack st')).
Proof.
  intros tokens st Hreach.
  pose proof (reaches_fits tokens WhileTest st Hreach) as Hfit.
  destruct (fits_while_counts _ _ Hfit) as [Hall Htl].
  split; [exact Hall|]. split; [exact Htl|]. split; [|split].
  - intros cs Hcs.
    destruct (while_step_zero st cs Hfit Hcs)
      as [rhs [lhs [op [ts [Hts [Hr [Hl [Hop [Hfits Hstep]]]]]]]]].
    exists rhs, lhs, op, ts. repeat (split; [assumption|]).
    destruct st as [ts0 cs0]. simpl in Hts, Hcs. subst ts0 cs0.
    apply while_loop_reduce.
  - intros st' Hstep. eapply reaches_reduce; eassumption.
  - intros st' Hwhile.
    destruct (while_loop_reaches tokens _ st st' (Nat.le_refl _) Hreach Hwhile)
      as [Hst' Hnone].
    split; [exact Hst'|].
    apply (fits_counts (EvalPrefix.token_stack st')).
    exact (reaches_fits tokens ForHead st' Hst').
Qed.

(** C8's theorem at the stacks of "+ 3 4" after the token 4. *)
Lemma count_stack_invariant_witness :
  reaches (IGen []) WhileTest (EvalPrefix.State [PInt 4; PInt 3; PStr "+"] [0]) /\
  Forall (fun c => c = 0 \/ c = 1 \/ c = 2) [0].
Proof.
  assert (H1 : reaches (IGen []) WhileTest (EvalPrefix.State [PStr "+"] [2])).
  { apply (reaches_push (IGen []) (EvalPrefix.State [] []) (PStr "+") [] _ false).
    - apply reaches_start.
    - reflexivity. }
  assert (H2 : reaches (IGen []) WhileTest (EvalPrefix.State [PInt 3; PStr "+"] [1])).
  { apply (reaches_push (IGen []) (EvalPrefix.State [PStr "+"] [2]) (PInt 3) [] _ false).
    - apply reaches_exit; [exact H1|reflexivity].
    - reflexivity. }
  assert (H3 : reaches (IGen []) WhileTest
                 (EvalPrefix.State [PInt 4; PInt 3; PStr "+"] [0])).
  { apply (reaches_push (IGen []) (EvalPrefix.State [PInt 3; PStr "+"] [1]) (PInt 4) [] _ false).
    - apply reaches_exit; [exact H2|reflexivity].
    - reflexivity. }
  split; [exact H3|].
  exact (proj1 (count_stack_invariant (IGen [])
                  (EvalPrefix.State [PInt 4; PInt 3; PStr "+"] [0]) H3)).
Defined.

(** ** The tokenizer *)

Lemma contains_symbols : forall t,
  EvalRpn.contains (PStr t) = true <-> In t symbols.
Proof.
  intros t. unfold EvalRpn.contains, EvalRpn.OPCODES, symbols.
  cbn [EvalRpn.lookup].
  repeat match goal with
    | |- context [String.eqb t ?k] =>
        destruct (String.eqb_spec t k);
        [subst t; split; [intros _; simpl; tauto | reflexivity]|]
    end.
  split; [discriminate|]. simpl. intuition congruence.
Qed.

Lemma append_empty : forall s, (s ++ EmptyString)%string = s.
Proof. induction s as [|c s IH]; simpl; [|rewrite IH]; reflexivity. Qed.

Lemma append_associative : forall a b c,
  ((a ++ b) ++ c)%string = (a ++ (b ++ c))%string.
Proof. induction a as [|x a IH]; intros b c; simpl; [|rewrite IH]; reflexivity. Qed.

Lemma characters_append : forall a b,
  list_ascii_of_string (a ++ b) = list_ascii_of_string a ++ list_ascii_of_string b.
Proof. induction a as [|x a IH]; intros b; simpl; [|rewrite IH]; reflexivity. Qed.

Lemma no_space_extend : forall cur c,
  no_space cur -> isspace c = false -> no_space (cur ++ String c EmptyString).
Proof.
  intros cur c Hcur Hc x Hx. rewrite characters_append in Hx.
  apply in_app_or in Hx. destruct Hx as [Hx | [<- | []]]; auto.
Qed.

Lemma splits_current : forall cur s ws,
  no_space cur -> at_boundary s -> splits s ws ->
  splits (cur ++ s)
    (match cur with EmptyString => ws | _ => cur :: ws end).
Proof.
  intros cur s ws Hcur Hs H. destruct cur as [|c cur]; [exact H|].
  apply splits_word; [split; [discriminate|exact Hcur]|exact Hs|exact H].
Qed.

(** [split_from] gives the words of what it has read and what it reads. *)
Lemma split_from_splits : forall s cur,
  no_space cur -> splits (cur ++ s) (split_from cur s).
Proof.
  induction s as [|c s IH]; intros cur Hcur.
  - cbn [split_from]. destruct cur as [|x cur].
    + constructor.
    + rewrite append_empty.
      rewrite <- (append_empty (String x cur)) at 1.
      apply splits_word; [split; [discriminate|exact Hcur]|exact I|constructor].
  - cbn [split_from]. destruct (isspace c) eqn:Hc.
    + apply splits_current; [exact Hcur|exact Hc|].
      apply splits_space; [exact Hc|]. apply (IH EmptyString). intros x [].
    + replace (cur ++ String c s)%string
        with ((cur ++ String c EmptyString) ++ s)%string
        by (rewrite append_associative; reflexivity).
      apply IH. apply no_space_extend; assumption.
Qed.

Lemma split_splits : forall text, splits text (split text).
Proof.
  intros text. apply (split_from_splits text EmptyString). intros x [].
Qed.

Lemma split_from_word : forall w cur s,
  no_space w -> split_from cur (w ++ s) = split_from (cur ++ w) s.
Proof.
  induction w as [|c w IH]; intros cur s Hw.
  - rewrite append_empty. reflexivity.
  - cbn [append split_from]. rewrite (Hw c) by (left; reflexivity).
    rewrite IH.
    + rewrite append_associative. reflexivity.
    + intros x Hx. apply Hw. right. exact Hx.
Qed.

(** The words of a string are determined by [splits]. *)
Lemma splits_unique : forall text ws, splits text ws -> ws = split text.
Proof.
  intros text ws H. unfold split.
  induction H as [|c s ws Hc H IH|w s ws [Hne Hw] Hs H IH].
  - reflexivity.
  - cbn [split_from]. rewrite Hc. exact IH.
  - rewrite split_from_word by exact Hw. cbn [append].
    destruct s as [|c s].
    + cbn [split_from] in *. subst ws. destruct w; [contradiction|reflexivity].
    + simpl in Hs. cbn [split_from] in *. rewrite Hs in *. subst ws.
      destruct w; [contradiction|reflexivity].
Qed.

(** [int] and [float] return a number or raise [ValueError]. *)
Lemma int_outcome : forall s,
  (exists z, int s = Ok (PInt z)) \/ (exists e, int s = Raise (Exn ValueError e)).
Proof.
  intros s. unfold int, invalid_literal, raise.
  destruct (sign s) as [neg body].
  destruct (digits body) as [[[v n] [|c rest]]|]; eauto.
Qed.

Lemma float_outcome : forall s,
  (exists f, float s = Ok (PFloat f)) \/ (exists e, float s = Raise (Exn ValueError e)).
Proof.
  intros s. unfold float, invalid_literal, raise.
  destruct (sign s) as [neg body].
  destruct (_ || _)%bool; [eauto|].
  destruct (String.eqb _ _); [eauto|].
  destruct (mantissa body) as [[[m nfrac] rest]|]; [|eauto].
  destruct (exponent rest) as [[e [|c rest']]|]; eauto.
Qed.

(** The tokenizer classifies every word as the table, [int] and [float]
    decide, in this order. *)
Lemma classify_word : forall t,
  classified t (if EvalRpn.contains (PStr t) then Ok (PStr t)
                else EvalRpn._try_parse t [int; float]).
Proof.
  intros t. destruct (EvalRpn.contains (PStr t)) eqn:Hop.
  - apply classified_operator. apply contains_symbols. exact Hop.
  - assert (Hno : ~ In t symbols).
    { intros Hin. apply contains_symbols in Hin. congruence. }
    cbn [EvalRpn._try_parse].
    destruct (int_outcome t) as [[z Hz] | [e He]]; rewrite ?Hz, ?He.
    + apply classified_int; assumption.
    + destruct (float_outcome t) as [[f Hf] | [e' He']]; rewrite ?Hf, ?He'.
      * eapply classified_float; eassumption.
      * eapply classified_invalid; eassumption.
Qed.

Lemma tokenizer_classified : forall text,
  Forall2 classified (split text) (EvalRpn._tokenize_expr text).
Proof.
  intros text. unfold EvalRpn._tokenize_expr.
  induction (split text) as [|t ws IH]; simpl; constructor; [|exact IH].
  apply classify_word.
Qed.

Lemma classified_item : forall t r, classified t r -> tokenizer_item r.
Proof.
  intros t r H. destruct H.
  - apply item_operator. apply contains_symbols. assumption.
  - apply item_number. reflexivity.
  - apply item_number. reflexivity.
  - apply item_invalid.
Qed.

Lemma tokenizer_items : forall text,
  Forall tokenizer_item (EvalRpn._tokenize_expr text).
Proof.
  intros text. pose proof (tokenizer_classified text) as H.
  induction H; constructor; [|assumption].
  eapply classified_item; eassumption.
Qed.

(** ** A token stream that fails *)

Lemma drain_all : forall g items,
  drain g = Ok items -> g = map Ok items.
Proof.
  induction g as [|r g IH]; intros items H; simpl in H.
  - injection H as <-. reflexivity.
  - destruct r as [x|e|]; cbn [bind] in H; try discriminate.
    destruct (drain g) as [xs|e|] eqn:E; cbn [bind] in H; try discriminate.
    injection H as <-. simpl. rewrite (IH xs eq_refl). reflexivity.
Qed.

(** The postfix engine returns only after every item has been given. *)
Lemma rpn_loop_all : forall swap_func g operands operands',
  EvalRpn.loop swap_func g operands = Ok operands' ->
  exists items, g = map Ok items.
Proof.
  intros swap_func g. induction g as [|r g IH]; intros operands operands' H.
  - exists []. reflexivity.
  - cbn [EvalRpn.loop] in H. destruct r as [tok|e|]; cbn [bind] in H;
      try discriminate.
    destruct (EvalRpn.step swap_func operands tok) as [ops|e|]; cbn [bind] in H;
      try discriminate.
    destruct (IH _ _ H) as [items ->]. exists (tok :: items). reflexivity.
Qed.

Lemma push_token_consumed : forall g token pending st st1,
  EvalPrefix.push_token (IGen g) token pending st = Ok (st1, true) ->
  exists items, pending = map Ok items.
Proof.
  intros g token pending [ts cs] st1 H. unfold EvalPrefix.push_token in H.
  cbn [EvalPrefix.token_stack EvalPrefix.count_stack EvalPrefix.list_tokens] in H.
  destruct (is_number token).
  - destruct ts as [|x ts]; cbn [bind] in H; [|discriminate].
    destruct (drain pending) as [items|e|] eqn:E; cbn [bind] in H;
      try discriminate.
    exists items. apply drain_all. exact E.
  - destruct (EvalPrefix.contains token); discriminate.
Qed.

(** So does the forward scan. *)
Lemma forward_loop_all : forall g0 g st st',
  EvalPrefix.loop (IGen g0) g st = Ok st' ->
  exists items, g = map Ok items.
Proof.
  intros g0 g. induction g as [|r g IH]; intros st st' H.
  - exists []. reflexivity.
  - cbn [EvalPrefix.loop] in H. destruct r as [token|e|]; cbn [bind] in H;
      try discriminate.
    unfold EvalPrefix.body in H.
    destruct (EvalPrefix.push_token (IGen g0) token g st) as [[st1 consumed]|e|] eqn:Hpush;
      cbn [bind] in H; try discriminate.
    destruct (EvalPrefix.while_loop st1) as [st2|e|]; cbn [bind] in H;
      try discriminate.
    destruct consumed.
    + destruct (push_token_consumed _ _ _ _ _ Hpush) as [items ->].
      exists (token :: items). reflexivity.
    + destruct (IH _ _ H) as [items ->]. exists (token :: items). reflexivity.
Qed.

Lemma raise_not_yielded : forall (e : exn) (items : list pyobj),
  ~ In (Raise e) (map Ok items).
Proof.
  intros e items H. apply in_map_iff in H. destruct H as [x [Hx _]]. discriminate.
Qed.

(** The token stack of the forward scan, once it holds a token, is never
    empty again. *)
Lemma reduce_pushes : forall ts ts',
  EvalPrefix.reduce ts = Ok ts' -> ts' <> [].
Proof.
  intros ts ts' H. unfold EvalPrefix.reduce in H.
  destruct ts as [|rhs [|lhs [|op rest]]]; try discriminate.
  cbn [pop bind] in H. rewrite prefix_reraise_value in H.
  destruct (EvalPrefix.reraise _) as [v|e|]; cbn [bind] in H; try discriminate.
  injection H as <-. discriminate.
Qed.

Lemma while_loop_keeps : forall n st st',
  (List.length (EvalPrefix.count_stack st) <= n)%nat ->
  EvalPrefix.token_stack st <> [] ->
  EvalPrefix.while_loop st = Ok st' ->
  EvalPrefix.token_stack st' <> [].
Proof.
  induction n as [|n IH]; intros st st' Hlen Hts H;
    rewrite while_loop_unfold in H;
    destruct (EvalPrefix.while_step st) as [r|] eqn:Hstep;
    try (injection H as <-; exact Hts).
  - unfold EvalPrefix.while_step in Hstep.
    destruct (EvalPrefix.count_stack st); [discriminate|simpl in Hlen; lia].
  - destruct r as [st1|e|]; cbn [bind] in H; try discriminate.
    unfold EvalPrefix.while_step in Hstep.
    destruct (EvalPrefix.count_stack st) as [|c cs] eqn:Hcs; [discriminate|].
    destruct (c =? 0); [|discriminate].
    destruct (EvalPrefix.reduce (EvalPrefix.token_stack st)) as [ts1|e|] eqn:Hred;
      cbn [bind] in Hstep; try discriminate.
    injection Hstep as <-.
    apply (IH (EvalPrefix.State ts1 (EvalPrefix.decrement cs)) st'); [| |exact H].
    + cbn [EvalPrefix.count_stack]. simpl in Hlen. destruct cs; simpl in *; lia.
    + cbn [EvalPrefix.token_stack]. eapply reduce_pushes; eassumption.
Qed.

(** On a token stack that is not empty the [if] / [else] does not look at
    the token stream. *)
Lemma push_token_later : forall tokens tokens' token pending x ts cs,
  EvalPrefix.push_token tokens token pending (EvalPrefix.State (x :: ts) cs) =
  EvalPrefix.push_token tokens' token pending (EvalPrefix.State (x :: ts) cs) /\
  forall st1 consumed,
    EvalPrefix.push_token tokens token pending (EvalPrefix.State (x :: ts) cs) =
      Ok (st1, consumed) ->
    consumed = false /\ EvalPrefix.token_stack st1 <> [].
Proof.
  intros tokens tokens' token pending x ts cs. unfold EvalPrefix.push_token.
  cbn [EvalPrefix.token_stack EvalPrefix.count_stack bind].
  split; [reflexivity|]. intros st1 consumed H.
  destruct (is_number token).
  - injection H as <- <-. split; [reflexivity|discriminate].
  - destruct (EvalPrefix.contains token); [|discriminate].
    injection H as <- <-. split; [reflexivity|discriminate].
Qed.

(** The failure among the items of a text is the failure InvalidSymbol of
    one of its words. *)
Lemma classified_failure : forall ws before e rest,
  Forall2 classified ws (before ++ Raise e :: rest) ->
  exists t, In t ws /\ e = invalid_symbol t.
Proof.
  intros ws before e rest H.
  apply Forall2_app_inv_r in H. destruct H as [ws1 [ws2 [_ [H ->]]]].
  inversion H as [|t r ws' g' Ht _]; subst.
  exists t. split; [apply in_or_app; right; left; reflexivity|].
  inversion Ht. reflexivity.
Qed.

(** The forward scan that gets through the items before a failure ends
    with this failure: it meets it in the loop, or when it lists the stream
    after a leading number. *)
Lemma forward_loop_stops : forall tokens before e rest st st',
  EvalPrefix.loop tokens before st = Ok st' ->
  EvalPrefix.loop tokens (before ++ Raise e :: rest) st = Raise e.
Proof.
  intros tokens before e rest.
  induction before as [|r before IH]; intros st st' H; [reflexivity|].
  cbn [app EvalPrefix.loop] in *.
  destruct r as [token|x|]; cbn [bind] in *; try discriminate.
  unfold EvalPrefix.body in *. destruct st as [ts cs].
  unfold EvalPrefix.push_token in *.
  cbn [EvalPrefix.token_stack EvalPrefix.count_stack] in *.
  destruct (is_number token).
  - destruct ts as [|x ts].
    + unfold EvalPrefix.list_tokens in *. destruct tokens as [g|l].
      * destruct (drain before) as [items|x|] eqn:E; cbn [bind] in H;
          try discriminate.
        apply drain_all in E. subst before. rewrite drain_raises. reflexivity.
      * cbn [bind] in *.
        destruct (1 <? Z.of_nat (List.length l)); cbn [bind] in *;
          try discriminate.
        destruct (EvalPrefix.while_loop _) as [st2|x|]; cbn [bind] in *;
          try discriminate.
        apply (IH _ _ H).
    + cbn [bind] in *.
      destruct (EvalPrefix.while_loop _) as [st2|x0|]; cbn [bind] in *;
        try discriminate.
      apply (IH _ _ H).
  - destruct (EvalPrefix.contains token); cbn [bind] in *; try discriminate.
    destruct (EvalPrefix.while_loop _) as [st2|x|]; cbn [bind] in *;
      try discriminate.
    apply (IH _ _ H).
Qed.

(** Once the token stack is not empty, a failure of the forward scan is
    not changed by what follows in the stream. *)
Lemma forward_loop_fails : forall tokens before rest st e,
  EvalPrefix.token_stack st <> [] ->
  EvalPrefix.loop tokens before st = Raise e ->
  EvalPrefix.loop tokens (before ++ rest) st = Raise e.
Proof.
  intros tokens before rest.
  induction before as [|r before IH]; intros st e Hts H; [discriminate|].
  cbn [app EvalPrefix.loop] in *.
  destruct r as [token|x|]; cbn [bind] in *; [|exact H|discriminate].
  destruct st as [[|x ts] cs]; [contradiction|].
  unfold EvalPrefix.body in *.
  assert (Hpush :
    EvalPrefix.push_token tokens token (before ++ rest) (EvalPrefix.State (x :: ts) cs) =
    EvalPrefix.push_token tokens token before (EvalPrefix.State (x :: ts) cs)).
  { reflexivity. }
  rewrite Hpush.
  destruct (push_token_later tokens tokens token before x ts cs) as [_ Hok].
  destruct (EvalPrefix.push_token tokens token before _) as [[st1 consumed]|x0|];
    cbn [bind] in *; [|exact H|discriminate].
  destruct (Hok st1 consumed eq_refl) as [-> Hst1].
  destruct (EvalPrefix.while_loop st1) as [st2|x0|] eqn:Hwhile; cbn [bind] in *;
    [|exact H|discriminate].
  apply IH; [|exact H].
  eapply while_loop_keeps; [apply Nat.le_refl|exact Hst1|exact Hwhile].
Qed.

(** So for a stream that does not start with a number. *)
Lemma forward_scan_fails : forall tokens before rest e,
  (forall n others, before = Ok n :: others -> is_number n = false) ->
  EvalPrefix.loop tokens before (EvalPrefix.State [] []) = Raise e ->
  EvalPrefix.loop tokens (before ++ rest) (EvalPrefix.State [] []) = Raise e.
Proof.
  intros tokens before rest e Hhead H.
  destruct before as [|r before]; [discriminate|].
  cbn [app EvalPrefix.loop] in *.
  destruct r as [token|x|]; cbn [bind] in *; [|exact H|discriminate].
  unfold EvalPrefix.body, EvalPrefix.push_token in *.
  rewrite (Hhead token before eq_refl) in *.
  destruct (EvalPrefix.contains token); cbn [bind] in *; [|exact H].
  cbn [EvalPrefix.token_stack EvalPrefix.count_stack] in *.
  rewrite while_loop_open in * by discriminate. cbn [bind] in *.
  apply forward_loop_fails; [discriminate|exact H].
Qed.

(** C4, as stated, fails: an unrecognized token does not always make the
    evaluation fail with InvalidSymbol.  The tokens are produced one at a
    time, and on "+ $" the postfix evaluator fails on "+" with
    InvalidExpression before it asks for "$"; on "1 0 / $", and the forward
    scan on "/ 1 0 $", the division by zero comes first. *)
Lemma invalid_symbol_not_reported :
  EvalRpn._tokenize_expr "+ $" = [Ok (PStr "+"); Raise (invalid_symbol "$")] /\
  EvalRpn.eval_postfix_expr "+ $" = raise IndexError "Invalid expression." /\
  EvalRpn.eval_postfix_expr "+ $" <> Raise (invalid_symbol "$") /\
  EvalRpn.eval_postfix_expr "1 0 / $" = raise ZeroDivisionError "Can not divide by zero." /\
  EvalPrefix.eval_prefix_expr "/ 1 0 $" = raise ValueError "Can not divide by zero.".
Proof.
  split; [vm_compute; reflexivity|].
  split; [vm_compute; reflexivity|].
  split; [vm_compute; discriminate|].
  split; vm_compute; reflexivity.
Qed.

(** C4, amended: the tokenizer gives one item for every maximal
    whitespace-free run of the input, in order, and these runs are the only
    way to cut the input at its whitespace.  A word that is an operator
    symbol is given as this operator; any other word is given to [int],
    then to [float], and the first of the two that succeeds gives the
    number; when both fail the item is the failure InvalidSymbol that names
    the word.  The items are produced one at a time, as the evaluator asks
    for them.  The evaluation fails with this InvalidSymbol when the loop
    over the items before it does not fail, as on "$ 9 2", and when the
    forward scan lists the stream after a leading number.  When the loop
    over the items before it fails, the postfix evaluation fails with that
    earlier failure, and so does the forward scan of a stream that does not
    start with a number.  An evaluation of a stream that holds a failure
    never returns a value. *)
Theorem tokenizer_classifies : forall (text : string),
  splits text (split text) /\
  (forall ws, splits text ws -> ws = split text) /\
  Forall2 classified (split text) (EvalRpn._tokenize_expr text) /\
  Forall2 classified (split text) (EvalPrefix._tokenize_expr text) /\
  (forall t,
     EvalRpn._try_parse t [int; float] =
     match int t with
     | Raise (Exn ValueError _) =>
         match float t with
         | Raise (Exn ValueError _) => Raise (invalid_symbol t)
         | r => r
         end
     | r => r
     end) /\
  (forall swap_func e rest operands,
     EvalRpn.loop swap_func (Raise e :: rest) operands = Raise e) /\
  (forall tokens e rest st,
     EvalPrefix.loop tokens (Raise e :: rest) st = Raise e) /\
  (forall g n before e rest cs,
     is_number n = true ->
     EvalPrefix.push_token (IGen g) n (map Ok before ++ Raise e :: rest)
       (EvalPrefix.State [] cs) = Raise e) /\
  (forall g e v swap_func,
     In (Raise e) g ->
     EvalRpn._eval_expr (IGen g) swap_func <> Ok v /\
     EvalPrefix._eval_expr (IGen g) <> Ok v) /\
  (forall before e rest,
     EvalRpn._tokenize_expr text = before ++ Raise e :: rest ->
     (exists t, In t (split text) /\ e = invalid_symbol t) /\
     (forall operands,
        EvalRpn.loop EvalRpn._postfix_swap before [] = Ok operands ->
        EvalRpn.eval_postfix_expr text = Raise e) /\
     (forall e',
        EvalRpn.loop EvalRpn._postfix_swap before [] = Raise e' ->
        EvalRpn.eval_postfix_expr text = Raise e')) /\
  (forall before e rest,
     EvalPrefix._tokenize_expr text = before ++ Raise e :: rest ->
     (forall st,
        EvalPrefix.loop (IGen (EvalPrefix._tokenize_expr text)) before
          (EvalPrefix.State [] []) = Ok st ->
        EvalPrefix.eval_prefix_expr text = Raise e) /\
     (forall n items,
        is_number n = true -> before = Ok n :: map Ok items ->
        EvalPrefix.eval_prefix_expr text = Raise e) /\
     (forall e',
        (forall n others, before = Ok n :: others -> is_number n = false) ->
        EvalPrefix.loop (IGen (EvalPrefix._tokenize_expr text)) before
          (EvalPrefix.State [] []) = Raise e' ->
        EvalPrefix.eval_prefix_expr text = Raise e')) /\
  EvalRpn.eval_postfix_expr "$ 9 2" = Raise (invalid_symbol "$") /\
  EvalPrefix.eval_prefix_expr "$ 9 2" = Raise (invalid_symbol "$").
Proof.
  intros text.
  split; [apply split_splits|].
  split; [apply splits_unique|].
  split; [apply tokenizer_classified|].
  split; [rewrite same_tokenizer; apply tokenizer_classified|].
  split; [reflexivity|].
  split; [reflexivity|].
  split; [reflexivity|].
  split.
  { intros g n before e rest cs Hn. unfold EvalPrefix.push_token. rewrite Hn.
    cbn [EvalPrefix.token_stack EvalPrefix.list_tokens].
    rewrite drain_raises. reflexivity. }
  split.
  { intros g e v swap_func Hin. split; intros H.
    - unfold EvalRpn._eval_expr in H. cbn [iter] in H.
      destruct (EvalRpn.loop swap_func g []) as [ops|x|] eqn:E; cbn [bind] in H;
        try discriminate.
      destruct (rpn_loop_all _ _ _ _ E) as [items ->].
      exact (raise_not_yielded e items Hin).
    - unfold EvalPrefix._eval_expr in H. cbn [iter] in H.
      destruct (EvalPrefix.loop (IGen g) g (EvalPrefix.State [] [])) as [st|x|] eqn:E;
        cbn [bind] in H; try discriminate.
      destruct (forward_loop_all _ _ _ _ E) as [items ->].
      exact (raise_not_yielded e items Hin). }
  split.
  { intros before e rest Htext. split; [|split].
    - apply (classified_failure (split text) before e rest).
      rewrite <- Htext. apply tokenizer_classified.
    - intros operands H.
      unfold EvalRpn.eval_postfix_expr, EvalRpn._eval_expr. cbn [iter].
      rewrite Htext, rpn_loop_app, H. reflexivity.
    - intros e' H.
      unfold EvalRpn.eval_postfix_expr, EvalRpn._eval_expr. cbn [iter].
      rewrite Htext, rpn_loop_app, H. reflexivity. }
  split; [|split; vm_compute; reflexivity].
  intros before e rest Htext. split; [|split].
  - intros st H.
    unfold EvalPrefix.eval_prefix_expr, EvalPrefix._eval_expr. cbn [iter].
    rewrite Htext at 2.
    rewrite (forward_loop_stops _ before e rest _ st H). reflexivity.
  - intros n items Hn ->.
    unfold EvalPrefix.eval_prefix_expr, EvalPrefix._eval_expr. cbn [iter].
    rewrite Htext at 2. cbn [app EvalPrefix.loop bind].
    unfold EvalPrefix.body, EvalPrefix.push_token. rewrite Hn.
    cbn [EvalPrefix.token_stack EvalPrefix.list_tokens].
    rewrite drain_raises. reflexivity.
  - intros e' Hhead H.
    unfold EvalPrefix.eval_prefix_expr, EvalPrefix._eval_expr. cbn [iter].
    rewrite Htext at 2.
    rewrite (forward_scan_fails _ before (Raise e :: rest) e' Hhead H). reflexivity.
Qed.

(** C4's theorem at "$ 9 2": the failure on "$" is the first item of the
    stream, so the postfix evaluation fails with it and returns no
    value. *)
Lemma tokenizer_classifies_witness :
  In (Raise (invalid_symbol "$")) (EvalRpn._tokenize_expr "$ 9 2") /\
  EvalRpn.eval_postfix_expr "$ 9 2" <> Ok (PInt 9) /\
  EvalRpn._tokenize_expr "$ 9 2" =
    [] ++ Raise (invalid_symbol "$") :: [Ok (PInt 9); Ok (PInt 2)] /\
  EvalRpn.loop EvalRpn._postfix_swap [] [] = Ok [] /\
  EvalRpn.eval_postfix_expr "$ 9 2" = Raise (invalid_symbol "$").
Proof.
  assert (Hin : In (Raise (invalid_symbol "$")) (EvalRpn._tokenize_expr "$ 9 2")).
  { left. reflexivity. }
  assert (Htext : EvalRpn._tokenize_expr "$ 9 2" =
                  [] ++ Raise (invalid_symbol "$") :: [Ok (PInt 9); Ok (PInt 2)]).
  { reflexivity. }
  destruct (tokenizer_classifies "$ 9 2")
    as [_ [_ [_ [_ [_ [_ [_ [_ [Hnone [Hpostfix _]]]]]]]]]].
  split; [exact Hin|].
  split; [exact (proj1 (Hnone _ _ (PInt 9) EvalRpn._postfix_swap Hin))|].
  split; [exact Htext|].
  split; [reflexivity|].
  exact (proj1 (proj2 (Hpostfix [] _ _ Htext)) [] eq_refl).
Defined.

(** ** The exceptions of an evaluation *)

Lemma invalid_symbol_not_unknown_operator : forall t,
  invalid_symbol t <> Exn ValueError (PStr "Invalid operator seen.").
Proof. intros t H. unfold invalid_symbol in H. simpl in H. discriminate. Qed.

Lemma forward_failure_known : forall e,
  forward_failure e ->
  (forall arg, e <> Exn KeyError arg) /\
  e <> Exn ValueError (PStr "Invalid operator seen.").
Proof.
  intros e [-> | [-> | [[t ->] | [arg ->]]]]; split;
    first [ apply invalid_symbol_not_unknown_operator
          | discriminate
          | intros arg'; discriminate ].
Qed.

Lemma postfix_failure_known : forall e,
  postfix_failure e -> forall arg, e <> Exn KeyError arg.
Proof.
  intros e [-> | [-> | [-> | [[t ->] | [arg ->]]]]] arg'; discriminate.
Qed.

(** An operator of the table applied under the [except] clauses of the
    stack engine. *)
Lemma rpn_apply_failure : forall lhs rhs tok e,
  EvalRpn.contains tok = true ->
  EvalRpn.reraise (EvalRpn._eval_op lhs rhs tok) = Raise e ->
  postfix_failure e.
Proof.
  intros lhs rhs tok e Htok H.
  pose proof (eval_op_outcome lhs rhs tok Htok) as Hout.
  destruct (EvalRpn._eval_op lhs rhs tok) as [v|[c arg]|]; try discriminate.
  simpl in Hout. destruct Hout as [-> | ->]; simpl in H; injection H as <-.
  - right; right; left; reflexivity.
  - right; right; right; right. eexists; reflexivity.
Qed.

Lemma rpn_step_failure : forall swap_func operands tok e,
  EvalRpn.step swap_func operands tok = Raise e -> postfix_failure e.
Proof.
  intros swap_func operands tok e H.
  destruct (EvalRpn.contains tok) eqn:Htok.
  - destruct operands as [|a [|b rest]].
    + unfold EvalRpn.step in H. rewrite Htok in H. simpl in H.
      injection H as <-. left; reflexivity.
    + unfold EvalRpn.step in H. rewrite Htok in H. simpl in H.
      injection H as <-. left; reflexivity.
    + rewrite rpn_step_operator in H by exact Htok.
      destruct (EvalRpn.reraise _) as [v|x|] eqn:E; cbn [bind] in H;
        try discriminate.
      injection H as <-. eapply rpn_apply_failure; eassumption.
  - unfold EvalRpn.step in H. rewrite Htok in H. discriminate.
Qed.

Lemma rpn_loop_failure : forall swap_func g operands e,
  Forall tokenizer_item g ->
  EvalRpn.loop swap_func g operands = Raise e -> postfix_failure e.
Proof.
  intros swap_func g. induction g as [|r g IH]; intros operands e Hg H.
  - discriminate.
  - inversion Hg as [|r' g' Hr Hg']; subst. cbn [EvalRpn.loop] in H.
    destruct Hr as [n Hn | op Hop | t]; cbn [bind] in H.
    + destruct (EvalRpn.step swap_func operands n) as [ops|x|] eqn:E;
        cbn [bind] in H; try discriminate.
      * eapply IH; eassumption.
      * injection H as <-. eapply rpn_step_failure; eassumption.
    + destruct (EvalRpn.step swap_func operands (PStr op)) as [ops|x|] eqn:E;
        cbn [bind] in H; try discriminate.
      * eapply IH; eassumption.
      * injection H as <-. eapply rpn_step_failure; eassumption.
    + injection H as <-. right; right; right; left. eexists; reflexivity.
Qed.

Lemma rpn_eval_failure : forall swap_func tokens e,
  Forall tokenizer_item (iter tokens) ->
  EvalRpn._eval_expr tokens swap_func = Raise e -> postfix_failure e.
Proof.
  intros swap_func tokens e Hg H. unfold EvalRpn._eval_expr in H.
  destruct (EvalRpn.loop swap_func (iter tokens) []) as [ops|x|] eqn:E;
    cbn [bind] in H; try discriminate.
  - destruct ops as [|v [|w ops]]; simpl in H; try discriminate;
      injection H as <-; right; left; reflexivity.
  - injection H as <-. eapply rpn_loop_failure; eassumption.
Qed.

Lemma drain_failure : forall g e,
  Forall tokenizer_item g -> drain g = Raise e -> exists t, e = invalid_symbol t.
Proof.
  induction g as [|r g IH]; intros e Hg H; [discriminate|].
  inversion Hg as [|r' g' Hr Hg']; subst. cbn [drain] in H.
  destruct Hr as [n Hn | op Hop | t]; cbn [bind] in H.
  - destruct (drain g) as [xs|x|] eqn:E; cbn [bind] in H; try discriminate.
    injection H as <-. apply IH; [assumption|reflexivity].
  - destruct (drain g) as [xs|x|] eqn:E; cbn [bind] in H; try discriminate.
    injection H as <-. apply IH; [assumption|reflexivity].
  - injection H as <-. eexists; reflexivity.
Qed.

Lemma push_token_failure : forall tokens token pending st e,
  tokenizer_item (Ok token) -> Forall tokenizer_item pending ->
  EvalPrefix.push_token tokens token pending st = Raise e ->
  forward_failure e.
Proof.
  intros tokens token pending [ts cs] e Htok Hg H.
  unfold EvalPrefix.push_token in H.
  cbn [EvalPrefix.token_stack EvalPrefix.count_stack] in H.
  inversion Htok as [n Hn | op Hop |]; subst.
  - rewrite Hn in H. destruct ts as [|x ts]; cbn [bind] in H; [|discriminate].
    unfold EvalPrefix.list_tokens in H. destruct tokens as [g|l].
    + destruct (drain pending) as [items|x|] eqn:E; cbn [bind] in H;
        try discriminate.
      * destruct (1 <? Z.of_nat (List.length items)); cbn [bind] in H;
          [|discriminate].
        injection H as <-. left; reflexivity.
      * injection H as <-. right; right; left.
        eapply drain_failure; eassumption.
    + cbn [bind] in H. destruct (1 <? Z.of_nat (List.length l)); cbn [bind] in H;
        [|discriminate].
      injection H as <-. left; reflexivity.
  - cbn [is_number] in H. rewrite same_contains, Hop in H. discriminate.
Qed.

(** The [while] loop on fitting stacks ends on fitting stacks or with a
    failure of an operator. *)
Lemma while_loop_outcome : forall n st,
  (List.length (EvalPrefix.count_stack st) <= n)%nat ->
  fits_at WhileTest st ->
  match EvalPrefix.while_loop st with
  | Ok st' => fits_at ForHead st'
  | Raise e => forward_failure e
  | Unmodelled => True
  end.
Proof.
  induction n as [|n IH]; intros st Hlen Hfit; rewrite while_loop_unfold;
    destruct (EvalPrefix.while_step st) as [r|] eqn:Hstep;
    try (apply while_step_exit; assumption).
  - unfold EvalPrefix.while_step in Hstep.
    destruct (EvalPrefix.count_stack st); [discriminate|simpl in Hlen; lia].
  - destruct (EvalPrefix.count_stack st) as [|c cs] eqn:Hcs.
    { unfold EvalPrefix.while_step in Hstep. rewrite Hcs in Hstep. discriminate. }
    assert (c = 0) as ->.
    { unfold EvalPrefix.while_step in Hstep. rewrite Hcs in Hstep.
      destruct (c =? 0) eqn:E; [apply Z.eqb_eq; exact E|discriminate]. }
    destruct (while_step_zero st cs Hfit Hcs)
      as [rhs [lhs [op [ts [Hts [Hr [Hl [Hop [Hfits Hstep']]]]]]]]].
    rewrite Hstep' in Hstep. injection Hstep as <-.
    pose proof (eval_op_outcome lhs rhs (PStr op) Hop) as Hout.
    rewrite <- same_eval_op in Hout.
    destruct (EvalPrefix._eval_op lhs rhs (PStr op)) as [v|[k arg]|];
      cbn [EvalPrefix.reraise bind]; [| |exact I].
    + apply IH.
      * cbn [EvalPrefix.count_stack]. simpl in Hlen.
        destruct cs; simpl in *; lia.
      * simpl. apply fits_operand; assumption.
    + simpl in Hout. destruct Hout as [-> | ->]; cbn [bind raise].
      * right; left; reflexivity.
      * right; right; right. eexists; reflexivity.
Qed.

Lemma forward_loop_outcome : forall tokens pending st,
  Forall tokenizer_item pending ->
  fits_at ForHead st ->
  match EvalPrefix.loop tokens pending st with
  | Ok st' => fits_at ForHead st'
  | Raise e => forward_failure e
  | Unmodelled => True
  end.
Proof.
  intros tokens pending. induction pending as [|r rest IH]; intros st Hg Hfit.
  - exact Hfit.
  - inversion Hg as [|r' g' Hr Hrest]; subst. cbn [EvalPrefix.loop].
    assert (Hbody : forall token, tokenizer_item (Ok token) ->
      match ('(st', consumed) <- EvalPrefix.body tokens token rest st ;;
             if consumed then Ok st' else EvalPrefix.loop tokens rest st') with
      | Ok st' => fits_at ForHead st'
      | Raise e => forward_failure e
      | Unmodelled => True
      end).
    { intros token Htok. unfold EvalPrefix.body.
      destruct (EvalPrefix.push_token tokens token rest st) as [[st1 consumed]|e|] eqn:Hpush;
        cbn [bind]; [| |exact I].
      - pose proof (while_loop_outcome _ st1 (Nat.le_refl _)
                      (push_token_fits _ _ _ _ _ _ Hfit Hpush)) as Hwhile.
        destruct (EvalPrefix.while_loop st1) as [st2|e|]; cbn [bind];
          [|exact Hwhile|exact I].
        destruct consumed; [exact Hwhile|]. apply IH; assumption.
      - eapply push_token_failure; eassumption. }
    destruct Hr as [n Hn | op Hop | t]; cbn [bind].
    + apply Hbody. apply item_number. exact Hn.
    + apply Hbody. apply item_operator. exact Hop.
    + right; right; left. eexists; reflexivity.
Qed.

Lemma forward_eval_failure : forall tokens e,
  Forall tokenizer_item (iter tokens) ->
  EvalPrefix._eval_expr tokens = Raise e -> forward_failure e.
Proof.
  intros tokens e Hg H. unfold EvalPrefix._eval_expr in H.
  pose proof (forward_loop_outcome tokens (iter tokens) (EvalPrefix.State [] []) Hg) as Hloop.
  destruct (EvalPrefix.loop tokens (iter tokens) (EvalPrefix.State [] [])) as [st|x|];
    cbn [bind] in H; try discriminate.
  - unfold EvalPrefix.finish in H.
    destruct (_ || _)%bool; [injection H as <-; left; reflexivity|].
    destruct (EvalPrefix.token_stack st); discriminate.
  - injection H as <-. apply Hloop. simpl. constructor. constructor.
Qed.

(** C10: every string item the tokenizer gives is a key of the operator
    table.  Hence the lookup of [_eval_op] succeeds at every operator token
    of the stack engine and at every reduction of the forward scan, neither
    evaluator raises [KeyError], and the forward scan never raises its
    "Invalid operator seen." [ValueError]: the exceptions of an evaluation
    are among InvalidExpression, DivisionByZero, InvalidSymbol and
    [OverflowError]. *)
Theorem unknown_operator_unreachable : forall (text : string),
  (forall s, In (Ok (PStr s)) (EvalRpn._tokenize_expr text) ->
     exists f, EvalRpn.getitem (PStr s) = Ok f) /\
  (forall tokens st cs,
     reaches tokens WhileTest st -> EvalPrefix.count_stack st = 0 :: cs ->
     exists rhs lhs op ts f,
       EvalPrefix.token_stack st = rhs :: lhs :: op :: ts /\
       EvalPrefix.getitem op = Ok f) /\
  (forall e, EvalRpn.eval_postfix_expr text = Raise e -> postfix_failure e) /\
  (forall e, EvalPrefix.eval_prefix_expr text = Raise e -> forward_failure e) /\
  (forall items swap_func arg,
     drain (EvalRpn._tokenize_expr text) = Ok items ->
     EvalRpn._eval_expr (IList (rev items)) swap_func <> Raise (Exn KeyError arg)) /\
  (forall arg, EvalRpn.eval_postfix_expr text <> Raise (Exn KeyError arg)) /\
  (forall arg, EvalPrefix.eval_prefix_expr text <> Raise (Exn KeyError arg)) /\
  EvalPrefix.eval_prefix_expr text <> raise ValueError "Invalid operator seen.".
Proof.
  intros text.
  assert (Hkey : forall s, EvalRpn.contains (PStr s) = true ->
                           exists f, EvalRpn.getitem (PStr s) = Ok f).
  { intros s H. unfold EvalRpn.contains in H. unfold EvalRpn.getitem.
    destruct (EvalRpn.lookup s EvalRpn.OPCODES) as [f|]; [eauto|discriminate]. }
  assert (Hpost : forall e, EvalRpn.eval_postfix_expr text = Raise e -> postfix_failure e).
  { intros e H. eapply rpn_eval_failure; [|exact H]. apply tokenizer_items. }
  assert (Hfwd : forall e, EvalPrefix.eval_prefix_expr text = Raise e -> forward_failure e).
  { intros e H. eapply forward_eval_failure; [|exact H].
    cbn [iter]. rewrite same_tokenizer. apply tokenizer_items. }
  split; [|split; [|split; [exact Hpost|split; [exact Hfwd|split; [|split; [|split]]]]]].
  - intros s Hin. apply Hkey.
    pose proof (tokenizer_items text) as Hitems.
    rewrite Forall_forall in Hitems. specialize (Hitems _ Hin).
    inversion Hitems as [n Hn | op Hop |]; subst; [discriminate|exact Hop].
  - intros tokens st cs Hreach Hcs.
    destruct (while_step_zero st cs (reaches_fits _ _ _ Hreach) Hcs)
      as [rhs [lhs [op [ts [Hts [_ [_ [Hop _]]]]]]]].
    destruct (Hkey op Hop) as [f Hf].
    exists rhs, lhs, (PStr op), ts, f. split; [exact Hts|exact Hf].
  - intros items swap_func arg Hitems H.
    apply drain_all in Hitems.
    refine (postfix_failure_known _ (rpn_eval_failure swap_func _ _ _ H) arg eq_refl).
    cbn [iter]. rewrite map_rev, <- Hitems. apply Forall_rev. apply tokenizer_items.
  - intros arg H. exact (postfix_failure_known _ (Hpost _ H) arg eq_refl).
  - intros arg H. exact (proj1 (forward_failure_known _ (Hfwd _ H)) arg eq_refl).
  - intros H. exact (proj2 (forward_failure_known _ (Hfwd _ H)) eq_refl).
Qed.

(** C10's theorem at "3 4 +". *)
Lemma unknown_operator_unreachable_witness :
  In (Ok (PStr "+")) (EvalRpn._tokenize_expr "3 4 +") /\
  exists f, EvalRpn.getitem (PStr "+") = Ok f.
Proof.
  assert (Hin : In (Ok (PStr "+")) (EvalRpn._tokenize_expr "3 4 +")).
  { right; right; left. reflexivity. }
  split; [exact Hin|].
  exact (proj1 (unknown_operator_unreachable "3 4 +") "+" Hin).
Defined.

(** ** What the two prefix strategies accept *)

Lemma read_backward_push : forall e es,
  read_backward (e :: es) = read_backward es ++ rev (prefix_tokens e).
Proof.
  intros e es. unfold read_backward. cbn [rev].
  rewrite map_app, concat_app. cbn [map List.concat]. rewrite app_nil_r. reflexivity.
Qed.

(** A run of the stack engine over reversed tokens that does not fail has
    read complete expressions, whose values are on the stack. *)
Lemma backward_accepts : forall p operands,
  Forall tokenizer_item (map Ok p) ->
  EvalRpn.loop EvalRpn._prefix_swap (map Ok p) [] = Ok operands ->
  exists es,
    Forall well_formed es /\ p = read_backward es /\
    Forall2 (fun e v => outcome_backward e = Ok v) es operands.
Proof.
  induction p as [|t p IH] using rev_ind; intros operands Hp H.
  - injection H as <-. exists []. repeat split; constructor.
  - rewrite map_app in Hp, H. apply Forall_app in Hp. destruct Hp as [Hp Ht].
    rewrite rpn_loop_app in H.
    destruct (EvalRpn.loop EvalRpn._prefix_swap (map Ok p) []) as [stack|x|] eqn:Hrun;
      cbn [bind] in H; try discriminate.
    destruct (IH stack Hp eq_refl) as [es [Hwf [Hread Hvals]]].
    cbn [map EvalRpn.loop bind] in H.
    destruct (EvalRpn.step EvalRpn._prefix_swap stack t) as [stack'|x|] eqn:Hstep;
      cbn [bind] in H; try discriminate.
    injection H as <-.
    inversion Ht as [|r l Hitem _]; subst. inversion Hitem as [n Hn | op Hop |]; subst.
    + unfold EvalRpn.step in Hstep.
      rewrite <- same_contains, number_is_no_operator in Hstep by exact Hn.
      injection Hstep as <-. exists (Num t :: es).
      split; [constructor; assumption|]. split.
      * rewrite read_backward_push. reflexivity.
      * constructor; [reflexivity|assumption].
    + destruct stack as [|a [|b rest]].
      * unfold EvalRpn.step in Hstep. rewrite Hop in Hstep. discriminate.
      * unfold EvalRpn.step in Hstep. rewrite Hop in Hstep. discriminate.
      * rewrite rpn_step_operator in Hstep by exact Hop.
        cbn [EvalRpn._prefix_swap fst snd] in Hstep.
        destruct (EvalRpn.reraise (EvalRpn._eval_op a b (PStr op))) as [v|x|] eqn:Hv;
          cbn [bind] in Hstep; try discriminate.
        injection Hstep as <-.
        inversion Hvals as [|ea a' es1 rest1 Ha Hvals1]; subst.
        inversion Hvals1 as [|eb b' es2 rest2 Hb Hvals2]; subst.
        inversion Hwf as [|? ? Hwa Hwf1]; subst.
        inversion Hwf1 as [|? ? Hwb Hwf2]; subst.
        exists (Bin op ea eb :: es2).
        split; [constructor; [simpl; auto|assumption]|]. split.
        -- rewrite !read_backward_push. cbn [prefix_tokens rev].
           rewrite rev_app_distr, <- !app_assoc. reflexivity.
        -- constructor; [|assumption].
           cbn [outcome_backward]. rewrite Hb, Ha. cbn [bind]. exact Hv.
Qed.

(** The stack engine with the swapped pop order returns a value only on the
    reversed prefix notation of an expression. *)
Lemma backward_scan_accepts : forall ts v,
  Forall tokenizer_item (map Ok ts) ->
  EvalRpn._eval_expr (IList (rev ts)) EvalRpn._prefix_swap = Ok v ->
  exists e, well_formed e /\ ts = prefix_tokens e.
Proof.
  intros ts v Hts H. unfold EvalRpn._eval_expr in H. cbn [iter] in H.
  destruct (EvalRpn.loop EvalRpn._prefix_swap (map Ok (rev ts)) []) as [stack|x|] eqn:Hrun;
    cbn [bind] in H; try discriminate.
  assert (Hrev : Forall tokenizer_item (map Ok (rev ts))).
  { rewrite map_rev. apply Forall_rev. exact Hts. }
  destruct (backward_accepts _ _ Hrev Hrun) as [es [Hwf [Hread Hvals]]].
  destruct stack as [|w [|w' stack]]; simpl in H; try discriminate.
  inversion Hvals as [|e w0 es1 l Hw Hnil]; subst. inversion Hnil; subst.
  inversion Hwf as [|? ? He _]; subst.
  exists e. split; [exact He|].
  unfold read_backward in Hread. cbn [rev app map List.concat] in Hread.
  rewrite app_nil_r in Hread.
  rewrite <- (rev_involutive ts), Hread. apply rev_involutive.
Qed.

(** An operand pushed by the forward scan completes the operators that
    were waiting for it. *)
Lemma parsed_operand : forall read ts cs,
  parsed read ts cs ->
  forall e v st',
  well_formed e -> outcome_forward e = Ok v ->
  EvalPrefix.while_loop (EvalPrefix.State (v :: ts) (EvalPrefix.decrement cs)) = Ok st' ->
  parsed (read ++ prefix_tokens e) (EvalPrefix.token_stack st') (EvalPrefix.count_stack st')
  /\ EvalPrefix.token_stack st' <> [].
Proof.
  induction 1 as [es vs Hwf Hvals | read ts cs op Hparsed IH Hop
                 | read ts cs op ea a Hparsed IH Hop Hwa Ha];
    intros e v st' He Hv Hwhile.
  - simpl in Hwhile. injection Hwhile as <-. simpl. split; [|discriminate].
    replace (List.concat (map prefix_tokens es) ++ prefix_tokens e)
      with (List.concat (map prefix_tokens (es ++ [e])))
      by (rewrite map_app, concat_app; simpl; rewrite app_nil_r; reflexivity).
    replace (v :: rev vs) with (rev (vs ++ [v]))
      by (rewrite rev_app_distr; reflexivity).
    apply parsed_base.
    + apply Forall_app. split; [assumption|constructor; [assumption|constructor]].
    + apply Forall2_app; [assumption|constructor; [assumption|constructor]].
  - cbn [EvalPrefix.decrement] in Hwhile. replace (2 - 1) with 1 in Hwhile by reflexivity.
    rewrite while_loop_open in Hwhile by discriminate. injection Hwhile as <-.
    simpl. split; [|discriminate].
    rewrite <- app_assoc. apply parsed_one; assumption.
  - cbn [EvalPrefix.decrement] in Hwhile. replace (1 - 1) with 0 in Hwhile by reflexivity.
    rewrite while_loop_reduce in Hwhile.
    destruct (EvalPrefix.reraise (EvalPrefix._eval_op a v (PStr op))) as [w|x|] eqn:Hw;
      cbn [bind] in Hwhile; try discriminate.
    replace ((read ++ PStr op :: prefix_tokens ea) ++ prefix_tokens e)
      with (read ++ prefix_tokens (Bin op ea e))
      by (cbn [prefix_tokens]; rewrite <- !app_assoc; reflexivity).
    apply (IH (Bin op ea e) w st').
    + simpl. auto.
    + cbn [outcome_forward]. rewrite Ha, Hv. cbn [bind]. exact Hw.
    + exact Hwhile.
Qed.

(** Once the token stack is not empty the forward scan reads token after
    token. *)
Lemma parsed_loop : forall tokens pending read ts cs st',
  Forall tokenizer_item (map Ok pending) ->
  parsed read ts cs -> ts <> [] ->
  EvalPrefix.loop tokens (map Ok pending) (EvalPrefix.State ts cs) = Ok st' ->
  parsed (read ++ pending) (EvalPrefix.token_stack st') (EvalPrefix.count_stack st').
Proof.
  intros tokens pending. induction pending as [|t pending IH];
    intros read ts cs st' Hp Hparsed Hts H.
  - injection H as <-. rewrite app_nil_r. exact Hparsed.
  - inversion Hp as [|r l Hitem Hrest]; subst.
    cbn [map EvalPrefix.loop bind] in H. unfold EvalPrefix.body in H.
    replace (read ++ t :: pending) with ((read ++ [t]) ++ pending)
      by (rewrite <- app_assoc; reflexivity).
    inversion Hitem as [n Hn | op Hop |]; subst.
    + destruct ts as [|x ts]; [contradiction|].
      rewrite push_number in H by exact Hn. cbn [bind] in H.
      destruct (EvalPrefix.while_loop _) as [st1|y|] eqn:Hwhile; cbn [bind] in H;
        try discriminate.
      destruct (parsed_operand _ _ _ Hparsed (Num t) t st1 Hn eq_refl Hwhile)
        as [Hst1 Hne].
      destruct st1 as [ts1 cs1]. apply (IH _ ts1 cs1); assumption.
    + rewrite push_operator in H by exact Hop. cbn [bind] in H.
      cbn [EvalPrefix.token_stack EvalPrefix.count_stack] in H.
      rewrite while_loop_open in H by discriminate. cbn [bind] in H.
      apply (IH _ (PStr op :: ts) (2 :: cs)); try assumption.
      * apply parsed_two; assumption.
      * discriminate.
Qed.

(** The forward scan returns a value only on the prefix notation of an
    expression, or on two tokens of which the first is a number. *)
Lemma forward_scan_accepts : forall ts v,
  Forall tokenizer_item (map Ok ts) ->
  EvalPrefix._eval_expr (IGen (map Ok ts)) = Ok v ->
  (exists e, well_formed e /\ ts = prefix_tokens e) \/
  (exists n x, ts = [n; x] /\ is_number n = true).
Proof.
  intros ts v Hts H. destruct ts as [|t ts].
  - discriminate.
  - inversion Hts as [|r l Hitem Hrest]; subst.
    inversion Hitem as [n Hn | op Hop |]; subst.
    + unfold EvalPrefix._eval_expr in H. cbn [iter map EvalPrefix.loop bind] in H.
      unfold EvalPrefix.body, EvalPrefix.push_token in H. rewrite Hn in H.
      cbn [EvalPrefix.token_stack EvalPrefix.list_tokens] in H.
      rewrite drain_yields in H. cbn [bind] in H.
      destruct ts as [|x [|y ts]].
      * left. exists (Num t). split; [exact Hn|reflexivity].
      * right. exists t, x. split; [reflexivity|exact Hn].
      * replace (1 <? Z.of_nat (List.length (x :: y :: ts))) with true in H
          by (symmetry; apply Z.ltb_lt; simpl List.length; lia).
        discriminate.
    + left. unfold EvalPrefix._eval_expr in H. cbn [iter map EvalPrefix.loop bind] in H.
      unfold EvalPrefix.body in H.
      rewrite push_operator in H by (rewrite same_contains; exact Hop).
      cbn [bind EvalPrefix.token_stack EvalPrefix.count_stack] in H.
      rewrite while_loop_open in H by discriminate. cbn [bind] in H.
      destruct (EvalPrefix.loop _ (map Ok ts) _) as [st'|x|] eqn:Hloop;
        cbn [bind] in H; try discriminate.
      assert (Hstart : parsed ([] ++ [PStr op]) [PStr op] [2]).
      { apply (parsed_two [] [] [] op).
        - exact (parsed_base [] [] (Forall_nil _) (Forall2_nil _)).
        - rewrite same_contains. exact Hop. }
      pose proof (parsed_loop _ ts _ _ _ st' Hrest Hstart
                    ltac:(discriminate) Hloop) as Hend.
      destruct st' as [ts' cs']. unfold EvalPrefix.finish in H.
      cbn [EvalPrefix.token_stack EvalPrefix.count_stack] in *.
      destruct cs' as [|c cs']; [|rewrite orb_true_r in H; discriminate].
      inversion Hend as [es vs Hwf Hvals Hread Hstack| |]; subst.
      rewrite length_rev in H.
      destruct vs as [|w [|w' vs]]; try discriminate.
      2: { exfalso. simpl List.length in H.
           replace (Z.of_nat (S (S (List.length vs))) =? 1) with false in H
             by (symmetry; apply Z.eqb_neq; lia).
           discriminate. }
      inversion Hvals as [|e w0 es1 l He Hnil]; subst.
      inversion Hnil; subst. inversion Hwf as [|? ? Hwe _]; subst.
      exists e. split; [exact Hwe|].
      cbn [map List.concat app] in Hread. rewrite app_nil_r in Hread.
      cbn [map List.concat app]. rewrite ?app_nil_r.
      first [symmetry; exact Hread | reflexivity].
Qed.

(** ** The two prefix strategies *)

(** C2, as stated, fails.  On "3 4" the forward scan returns 3, while the
    prefix evaluator of [eval_rpn.py] raises [TypeError], as it does on
    every input, and the stack engine on the reversed token list fails with
    InvalidExpression.  On "+ / 1 0 + 1.0 ^ 10 400" the forward scan meets
    the division by zero first, the engine on the reversed tokens meets the
    int too large for a float first. *)
Lemma prefix_strategies_differ :
  EvalPrefix.eval_prefix_expr "3 4" = Ok (PInt 3) /\
  EvalRpn.eval_prefix_expr "3 4" =
    raise TypeError "'generator' object is not reversible" /\
  EvalRpn._eval_expr (IList (rev [PInt 3; PInt 4])) EvalRpn._prefix_swap =
    raise ValueError "Invalid expression." /\
  EvalRpn.eval_prefix_expr "3 4" <> EvalPrefix.eval_prefix_expr "3 4" /\
  EvalPrefix.eval_prefix_expr "+ / 1 0 + 1.0 ^ 10 400" =
    raise ValueError "Can not divide by zero." /\
  (items <- drain (EvalRpn._tokenize_expr "+ / 1 0 + 1.0 ^ 10 400") ;;
   EvalRpn._eval_expr (IList (rev items)) EvalRpn._prefix_swap) =
    raise OverflowError "int too large to convert to float".
Proof.
  split; [vm_compute; reflexivity|].
  split; [vm_compute; reflexivity|].
  split; [vm_compute; reflexivity|].
  split; [vm_compute; discriminate|].
  split; vm_compute; reflexivity.
Qed.

(** C2, amended: for every input whose words are all tokens, other than
    an input of exactly two tokens of which the first is a number, the
    forward scan returns a value exactly when the stack engine with the
    swapped pop order, run over the reversed token list, returns it, and it
    is the same value; the tokens are then the prefix notation of an
    expression over numbers and operators of the table. *)
Theorem prefix_strategies_agree : forall (text : string) (ts : list pyobj) (v : pyobj),
  drain (EvalPrefix._tokenize_expr text) = Ok ts ->
  ~ (exists n x, ts = [n; x] /\ is_number n = true) ->
  (EvalPrefix.eval_prefix_expr text = Ok v <->
   EvalRpn._eval_expr (IList (rev ts)) EvalRpn._prefix_swap = Ok v) /\
  (EvalPrefix.eval_prefix_expr text = Ok v ->
   exists e, well_formed e /\ ts = prefix_tokens e).
Proof.
  intros text ts v Hdrain Hgap.
  apply drain_all in Hdrain.
  assert (Hitems : Forall tokenizer_item (map Ok ts)).
  { rewrite <- Hdrain, same_tokenizer. apply tokenizer_items. }
  unfold EvalPrefix.eval_prefix_expr. rewrite Hdrain.
  assert (Hfwd : EvalPrefix._eval_expr (IGen (map Ok ts)) = Ok v ->
                 exists e, well_formed e /\ ts = prefix_tokens e).
  { intros H. destruct (forward_scan_accepts ts v Hitems H) as [He | Hex];
      [exact He|contradiction]. }
  split; [|exact Hfwd]. split; intros H.
  - destruct (Hfwd H) as [e [Hwf ->]]. apply well_formed_agreement; assumption.
  - destruct (backward_scan_accepts ts v Hitems H) as [e [Hwf ->]].
    apply well_formed_agreement; assumption.
Qed.

(** C2's theorem at "+ 3 4". *)
Lemma prefix_strategies_agree_witness :
  drain (EvalPrefix._tokenize_expr "+ 3 4") = Ok [PStr "+"; PInt 3; PInt 4] /\
  ~ (exists n x, [PStr "+"; PInt 3; PInt 4] = [n; x] /\ is_number n = true) /\
  (EvalPrefix.eval_prefix_expr "+ 3 4" = Ok (PInt 7) <->
   EvalRpn._eval_expr (IList [PInt 4; PInt 3; PStr "+"]) EvalRpn._prefix_swap
     = Ok (PInt 7)).
Proof.
  assert (Hdrain : drain (EvalPrefix._tokenize_expr "+ 3 4") =
                   Ok [PStr "+"; PInt 3; PInt 4]) by reflexivity.
  assert (Hgap : ~ (exists n x, [PStr "+"; PInt 3; PInt 4] = [n; x] /\
                                is_number n = true)).
  { intros [n [x [Heq _]]]. discriminate Heq. }
  split; [exact Hdrain|]. split; [exact Hgap|].
  exact (proj1 (prefix_strategies_agree "+ 3 4" [PStr "+"; PInt 3; PInt 4]
                  (PInt 7) Hdrain Hgap)).
Defined.

(* ================================================================== *)
(** * Further properties *)
(* ================================================================== *)

(** ** [_try_parse] *)

Lemma try_parse_declined : forall value fs,
  Forall (declines value) fs ->
  EvalRpn._try_parse value fs = Raise (invalid_symbol value).
Proof.
  intros value fs H. induction H as [|f fs [e He] _ IH]; [reflexivity|].
  cbn [EvalRpn._try_parse]. rewrite He. exact IH.
Qed.

Lemma try_parse_settled : forall value pre f post,
  Forall (declines value) pre -> settles (f value) ->
  EvalRpn._try_parse value (pre ++ f :: post) = f value.
Proof.
  intros value pre f post Hpre Hf. induction Hpre as [|g pre [e He] _ IH].
  - cbn [app EvalRpn._try_parse].
    destruct (f value) as [x|[[] arg]|] eqn:E; try reflexivity.
    exfalso. exact (Hf arg eq_refl).
  - cbn [app EvalRpn._try_parse]. rewrite He. exact IH.
Qed.

(** X1: [_try_parse] gives what the first parse function that does not
    raise [ValueError] gives, be it a value or another exception, and does
    not call the functions after it; when every function raises
    [ValueError], and in particular when there is none, it raises the
    [ValueError] that names the value.  The two files agree. *)
Theorem try_parse_first_settled : forall (value : string)
  (pre post : list (string -> result pyobj)) (f : string -> result pyobj),
  Forall (declines value) pre ->
  (settles (f value) ->
     EvalRpn._try_parse value (pre ++ f :: post) = f value /\
     EvalPrefix._try_parse value (pre ++ f :: post) = f value) /\
  EvalRpn._try_parse value pre = Raise (invalid_symbol value) /\
  EvalPrefix._try_parse value pre = Raise (invalid_symbol value).
Proof.
  intros value pre post f Hpre. split; [|split].
  - intros Hf. split; apply try_parse_settled; assumption.
  - apply try_parse_declined. exact Hpre.
  - apply (try_parse_declined value pre Hpre).
Qed.

(** X1's theorem at "2.5", which [int] declines and [float] accepts. *)
Lemma try_parse_first_settled_witness :
  Forall (declines "2.5") [int] /\ settles (float "2.5") /\
  EvalRpn._try_parse "2.5" [int; float] = float "2.5".
Proof.
  assert (Hpre : Forall (declines "2.5") [int]).
  { constructor; [|constructor]. eexists. reflexivity. }
  assert (Hf : settles (float "2.5")).
  { intros e H. vm_compute in H. discriminate H. }
  split; [exact Hpre|]. split; [exact Hf|].
  exact (proj1 (proj1 (try_parse_first_settled "2.5" [int] [] float Hpre) Hf)).
Defined.

(** ** The tokenizer on a text in two parts *)

Lemma split_from_space : forall a cur c b,
  isspace c = true ->
  split_from cur (a ++ String c b) = split_from cur a ++ split b.
Proof.
  induction a as [|x a IH]; intros cur c b Hc.
  - cbn [append split_from]. rewrite Hc. destruct cur; reflexivity.
  - cbn [append split_from]. destruct (isspace x).
    + destruct cur; rewrite IH by exact Hc; reflexivity.
    + apply IH. exact Hc.
Qed.

Lemma split_space : forall a c b,
  isspace c = true -> split (a ++ String c b) = split a ++ split b.
Proof. intros a c b Hc. apply split_from_space. exact Hc. Qed.

Lemma tokenize_space : forall a c b,
  isspace c = true ->
  EvalRpn._tokenize_expr (a ++ String c b) =
  EvalRpn._tokenize_expr a ++ EvalRpn._tokenize_expr b.
Proof.
  intros a c b Hc. unfold EvalRpn._tokenize_expr.
  rewrite split_space by exact Hc. apply map_app.
Qed.

(** X2: the tokens of two texts joined by a whitespace character are the
    tokens of the first followed by the tokens of the second, so that a
    word never runs across the joint; whitespace before or after a text
    adds no token. *)
Theorem tokenizer_composes : forall (a b : string) (c : ascii),
  isspace c = true ->
  EvalRpn._tokenize_expr (a ++ String c b) =
    EvalRpn._tokenize_expr a ++ EvalRpn._tokenize_expr b /\
  EvalPrefix._tokenize_expr (a ++ String c b) =
    EvalPrefix._tokenize_expr a ++ EvalPrefix._tokenize_expr b /\
  EvalRpn._tokenize_expr (String c a) = EvalRpn._tokenize_expr a /\
  EvalRpn._tokenize_expr (a ++ String c EmptyString) = EvalRpn._tokenize_expr a /\
  List.length (EvalRpn._tokenize_expr (a ++ String c b)) =
    (List.length (split a) + List.length (split b))%nat.
Proof.
  intros a b c Hc. split; [|split; [|split; [|split]]].
  - apply tokenize_space. exact Hc.
  - rewrite same_tokenizer. apply tokenize_space. exact Hc.
  - apply (tokenize_space EmptyString c a Hc).
  - rewrite tokenize_space by exact Hc. apply app_nil_r.
  - rewrite tokenize_space by exact Hc. unfold EvalRpn._tokenize_expr.
    rewrite length_app, !length_map. reflexivity.
Qed.

(** X2's theorem at "3 4" and "+", joined by a tab. *)
Lemma tokenizer_composes_witness :
  isspace "009" = true /\
  EvalRpn._tokenize_expr ("3 4" ++ String "009" "+") =
    [Ok (PInt 3); Ok (PInt 4); Ok (PStr "+")].
Proof.
  split; [reflexivity|].
  exact (proj1 (tokenizer_composes "3 4" "+" "009" eq_refl)).
Defined.

(** ** The postfix evaluator and the stack below its operands *)

Lemma rpn_step_frame : forall swap_func operands tok operands' base,
  EvalRpn.step swap_func operands tok = Ok operands' ->
  EvalRpn.step swap_func (operands ++ base) tok = Ok (operands' ++ base).
Proof.
  intros swap_func operands tok operands' base H.
  destruct (EvalRpn.contains tok) eqn:Htok.
  - destruct operands as [|a [|b rest]].
    + unfold EvalRpn.step in H. rewrite Htok in H. discriminate.
    + unfold EvalRpn.step in H. rewrite Htok in H. discriminate.
    + cbn [app]. rewrite rpn_step_operator in * by exact Htok.
      destruct (EvalRpn.reraise _) as [v|x|]; cbn [bind] in *; try discriminate.
      injection H as <-. reflexivity.
  - unfold EvalRpn.step in *. rewrite Htok in *. injection H as <-. reflexivity.
Qed.

Lemma rpn_loop_frame : forall swap_func g operands operands' base,
  EvalRpn.loop swap_func g operands = Ok operands' ->
  EvalRpn.loop swap_func g (operands ++ base) = Ok (operands' ++ base).
Proof.
  intros swap_func g. induction g as [|r g IH]; intros operands operands' base H.
  - injection H as <-. reflexivity.
  - cbn [EvalRpn.loop] in *. destruct r as [tok|e|]; cbn [bind] in *;
      try discriminate.
    destruct (EvalRpn.step swap_func operands tok) as [ops|e|] eqn:Hstep;
      cbn [bind] in H; try discriminate.
    rewrite (rpn_step_frame _ _ _ _ base Hstep). cbn [bind].
    apply IH. exact H.
Qed.

Lemma rpn_loop_fails : forall swap_func before after operands e,
  EvalRpn.loop swap_func before operands = Raise e ->
  EvalRpn.loop swap_func (before ++ after) operands = Raise e.
Proof.
  intros swap_func before after operands e H.
  rewrite rpn_loop_app, H. reflexivity.
Qed.

(** What [_eval_expr] returns comes from a loop that ends with exactly this
    value on the stack. *)
Lemma rpn_eval_value : forall tokens swap_func v,
  EvalRpn._eval_expr tokens swap_func = Ok v <->
  EvalRpn.loop swap_func (iter tokens) [] = Ok [v].
Proof.
  intros tokens swap_func v. unfold EvalRpn._eval_expr. split; intros H.
  - destruct (EvalRpn.loop swap_func (iter tokens) []) as [[|w [|w' ops]]|e|];
      cbn [bind EvalRpn.finish] in H; try discriminate.
    injection H as <-. reflexivity.
  - rewrite H. reflexivity.
Qed.

(** X3: an evaluation of the stack engine that does not fail never looks
    under the operands it has pushed itself: started on a stack with
    anything more at the bottom, the same tokens give the same stack on top
    of it.  In particular a token stream that evaluates to a value pushes
    this value on whatever stack it is run on. *)
Theorem postfix_frame : forall (swap_func : pyobj -> pyobj -> pyobj * pyobj)
  (g : generator) (operands operands' base : list pyobj),
  EvalRpn.loop swap_func g operands = Ok operands' ->
  EvalRpn.loop swap_func g (operands ++ base) = Ok (operands' ++ base) /\
  (forall v, EvalRpn._eval_expr (IGen g) swap_func = Ok v ->
     EvalRpn.loop swap_func g base = Ok (v :: base)).
Proof.
  intros swap_func g operands operands' base H. split.
  - apply rpn_loop_frame. exact H.
  - intros v Hv. apply rpn_eval_value in Hv. cbn [iter] in Hv.
    exact (rpn_loop_frame swap_func g [] [v] base Hv).
Qed.

(** X3's theorem at "3 4 +" over the stack [1]. *)
Lemma postfix_frame_witness :
  EvalRpn.loop EvalRpn._postfix_swap (EvalRpn._tokenize_expr "3 4 +") [] = Ok [PInt 7] /\
  EvalRpn.loop EvalRpn._postfix_swap (EvalRpn._tokenize_expr "3 4 +") [PInt 1] =
    Ok [PInt 7; PInt 1].
Proof.
  assert (H : EvalRpn.loop EvalRpn._postfix_swap (EvalRpn._tokenize_expr "3 4 +") [] =
              Ok [PInt 7]) by reflexivity.
  split; [exact H|].
  exact (proj1 (postfix_frame EvalRpn._postfix_swap (EvalRpn._tokenize_expr "3 4 +")
                  [] [PInt 7] [PInt 1] H)).
Defined.

(** X4: the first failure in the order of the tokens is the failure of the
    postfix evaluation.  When the loop fails on the tokens of a text, it
    fails in the same way on this text followed by any other: what comes
    after the failing token is never tokenized. *)
Theorem postfix_first_failure : forall (a b : string) (c : ascii) (e : exn),
  isspace c = true ->
  EvalRpn.loop EvalRpn._postfix_swap (EvalRpn._tokenize_expr a) [] = Raise e ->
  EvalRpn.eval_postfix_expr a = Raise e /\
  EvalRpn.eval_postfix_expr (a ++ String c b) = Raise e.
Proof.
  intros a b c e Hc H. unfold EvalRpn.eval_postfix_expr, EvalRpn._eval_expr.
  cbn [iter]. rewrite tokenize_space by exact Hc.
  rewrite (rpn_loop_fails _ _ _ _ _ H), H. split; reflexivity.
Qed.

(** X4's theorem at "1 0 /" followed by "$". *)
Lemma postfix_first_failure_witness :
  isspace " " = true /\
  EvalRpn.loop EvalRpn._postfix_swap (EvalRpn._tokenize_expr "1 0 /") [] =
    raise ZeroDivisionError "Can not divide by zero." /\
  EvalRpn.eval_postfix_expr ("1 0 /" ++ String " " "$") =
    raise ZeroDivisionError "Can not divide by zero.".
Proof.
  assert (H : EvalRpn.loop EvalRpn._postfix_swap (EvalRpn._tokenize_expr "1 0 /") [] =
              raise ZeroDivisionError "Can not divide by zero.") by reflexivity.
  split; [reflexivity|]. split; [exact H|].
  exact (proj2 (postfix_first_failure "1 0 /" "$" " " _ eq_refl H)).
Defined.

Lemma tokenize_symbol : forall op,
  In op symbols -> EvalRpn._tokenize_expr op = [Ok (PStr op)].
Proof.
  intros op H. unfold symbols in H. simpl in H.
  repeat (destruct H as [<- | H]; [reflexivity|]). contradiction.
Qed.

(** X5: postfix evaluation composes.  When two texts evaluate to the values
    [va] and [vb], the two texts followed by an operator symbol, with
    whitespace between the three, evaluate as the operator applied to [va]
    on the left and [vb] on the right, with the exceptions of the operator
    reported as the evaluator reports them. *)
Theorem postfix_composes : forall (a b op : string) (c d : ascii) (va vb : pyobj),
  isspace c = true -> isspace d = true -> In op symbols ->
  EvalRpn.eval_postfix_expr a = Ok va ->
  EvalRpn.eval_postfix_expr b = Ok vb ->
  EvalRpn.eval_postfix_expr (a ++ String c (b ++ String d op)) =
  EvalRpn.reraise (EvalRpn._eval_op va vb (PStr op)).
Proof.
  intros a b op c d va vb Hc Hd Hop Ha Hb.
  unfold EvalRpn.eval_postfix_expr in *.
  apply rpn_eval_value in Ha. apply rpn_eval_value in Hb. cbn [iter] in Ha, Hb.
  unfold EvalRpn._eval_expr. cbn [iter].
  rewrite !tokenize_space by assumption. rewrite (tokenize_symbol op Hop).
  rewrite rpn_loop_app, Ha. cbn [bind]. rewrite rpn_loop_app.
  pose proof (rpn_loop_frame _ _ [] [vb] [va] Hb) as Hb'. cbn [app] in Hb'.
  rewrite Hb'. cbn [bind app EvalRpn.loop].
  rewrite rpn_step_operator by (apply contains_symbols; exact Hop).
  cbn [EvalRpn._postfix_swap fst snd].
  destruct (EvalRpn.reraise (EvalRpn._eval_op va vb (PStr op))); reflexivity.
Qed.

(** X5's theorem at "10 5 *" and "6 2 +" under "/". *)
Lemma postfix_composes_witness :
  isspace " " = true /\ In "/" symbols /\
  EvalRpn.eval_postfix_expr "10 5 *" = Ok (PInt 50) /\
  EvalRpn.eval_postfix_expr "6 2 +" = Ok (PInt 8) /\
  EvalRpn.eval_postfix_expr ("10 5 *" ++ String " " ("6 2 +" ++ String " " "/")) =
    EvalRpn.reraise (EvalRpn._eval_op (PInt 50) (PInt 8) (PStr "/")).
Proof.
  assert (Hop : In "/" symbols) by (simpl; tauto).
  split; [reflexivity|]. split; [exact Hop|].
  split; [reflexivity|]. split; [reflexivity|].
  exact (postfix_composes "10 5 *" "6 2 +" "/" " " " " (PInt 50) (PInt 8)
           eq_refl eq_refl Hop eq_refl eq_refl).
Defined.

(** ** The expressions the postfix evaluator accepts *)

Lemma postfix_run : forall e rest operands,
  well_formed e ->
  EvalRpn.loop EvalRpn._postfix_swap (map Ok (postfix_tokens e) ++ rest) operands =
  (v <- outcome_postfix e ;;
   EvalRpn.loop EvalRpn._postfix_swap rest (v :: operands)).
Proof.
  induction e as [n | op l IHl r IHr]; intros rest operands Hwf.
  - simpl in Hwf. simpl. unfold EvalRpn.step.
    rewrite <- same_contains, number_is_no_operator by exact Hwf. reflexivity.
  - destruct Hwf as [Hop [Hl Hr]].
    cbn [postfix_tokens]. rewrite !map_app, <- !app_assoc.
    rewrite IHl by exact Hl. cbn [outcome_postfix]. rewrite bind_assoc.
    destruct (outcome_postfix l) as [a|e|]; cbn [bind]; try reflexivity.
    rewrite IHr by exact Hr. rewrite bind_assoc.
    destruct (outcome_postfix r) as [b|e|]; cbn [bind]; try reflexivity.
    cbn [map app EvalRpn.loop bind].
    rewrite rpn_step_operator by exact Hop.
    cbn [EvalRpn._postfix_swap fst snd]. rewrite bind_assoc. reflexivity.
Qed.

Lemma postfix_outcome : forall e,
  well_formed e ->
  EvalRpn._eval_expr (IGen (map Ok (postfix_tokens e))) EvalRpn._postfix_swap =
  outcome_postfix e.
Proof.
  intros e Hwf. unfold EvalRpn._eval_expr. cbn [iter].
  rewrite <- (app_nil_r (map Ok (postfix_tokens e))).
  rewrite postfix_run by exact Hwf.
  destruct (outcome_postfix e) as [v|x|]; reflexivity.
Qed.

Lemma read_postfix_push : forall e es,
  read_postfix (e :: es) = read_postfix es ++ postfix_tokens e.
Proof.
  intros e es. unfold read_postfix. cbn [rev].
  rewrite map_app, concat_app. cbn [map List.concat]. rewrite app_nil_r. reflexivity.
Qed.

Lemma postfix_accepts : forall p operands,
  Forall tokenizer_item (map Ok p) ->
  EvalRpn.loop EvalRpn._postfix_swap (map Ok p) [] = Ok operands ->
  exists es,
    Forall well_formed es /\ p = read_postfix es /\
    Forall2 (fun e v => outcome_postfix e = Ok v) es operands.
Proof.
  induction p as [|t p IH] using rev_ind; intros operands Hp H.
  - injection H as <-. exists []. repeat split; constructor.
  - rewrite map_app in Hp, H. apply Forall_app in Hp. destruct Hp as [Hp Ht].
    rewrite rpn_loop_app in H.
    destruct (EvalRpn.loop EvalRpn._postfix_swap (map Ok p) []) as [stack|x|] eqn:Hrun;
      cbn [bind] in H; try discriminate.
    destruct (IH stack Hp eq_refl) as [es [Hwf [Hread Hvals]]].
    cbn [map EvalRpn.loop bind] in H.
    destruct (EvalRpn.step EvalRpn._postfix_swap stack t) as [stack'|x|] eqn:Hstep;
      cbn [bind] in H; try discriminate.
    injection H as <-.
    inversion Ht as [|r l Hitem _]; subst. inversion Hitem as [n Hn | op Hop |]; subst.
    + unfold EvalRpn.step in Hstep.
      rewrite <- same_contains, number_is_no_operator in Hstep by exact Hn.
      injection Hstep as <-. exists (Num t :: es).
      split; [constructor; assumption|]. split.
      * rewrite read_postfix_push. reflexivity.
      * constructor; [reflexivity|assumption].
    + destruct stack as [|b [|a rest]].
      * unfold EvalRpn.step in Hstep. rewrite Hop in Hstep. discriminate.
      * unfold EvalRpn.step in Hstep. rewrite Hop in Hstep. discriminate.
      * rewrite rpn_step_operator in Hstep by exact Hop.
        cbn [EvalRpn._postfix_swap fst snd] in Hstep.
        destruct (EvalRpn.reraise (EvalRpn._eval_op a b (PStr op))) as [v|x|] eqn:Hv;
          cbn [bind] in Hstep; try discriminate.
        injection Hstep as <-.
        inversion Hvals as [|eb b' es1 rest1 Hb Hvals1]; subst.
        inversion Hvals1 as [|ea a' es2 rest2 Ha Hvals2]; subst.
        inversion Hwf as [|? ? Hwb Hwf1]; subst.
        inversion Hwf1 as [|? ? Hwa Hwf2]; subst.
        exists (Bin op ea eb :: es2).
        split; [constructor; [simpl; auto|assumption]|]. split.
        -- rewrite !read_postfix_push. cbn [postfix_tokens].
           rewrite <- !app_assoc. reflexivity.
        -- constructor; [|assumption].
           cbn [outcome_postfix]. rewrite Ha, Hb. cbn [bind]. exact Hv.
Qed.

(** X6: on a stream of numbers and operators of the table the postfix
    evaluator returns a value exactly when the tokens are the postfix
    notation of an expression tree, and the value is the one obtained from
    the tree, every operator applied to the value of its left subtree on
    the left and of its right subtree on the right. *)
Theorem postfix_language : forall (ts : list pyobj) (v : pyobj),
  Forall tokenizer_item (map Ok ts) ->
  (EvalRpn._eval_expr (IGen (map Ok ts)) EvalRpn._postfix_swap = Ok v <->
   exists e, well_formed e /\ ts = postfix_tokens e /\ outcome_postfix e = Ok v).
Proof.
  intros ts v Hts. split.
  - intros H. apply rpn_eval_value in H. cbn [iter] in H.
    destruct (postfix_accepts _ _ Hts H) as [es [Hwf [Hread Hvals]]].
    inversion Hvals as [|e w es1 l He Hnil]; subst. inversion Hnil; subst.
    inversion Hwf as [|? ? Hwe _]; subst.
    exists e. split; [exact Hwe|]. split; [|exact He].
    unfold read_postfix. cbn [rev app map List.concat]. apply app_nil_r.
  - intros [e [Hwf [-> He]]]. rewrite postfix_outcome by exact Hwf. exact He.
Qed.

(** X6's theorem at the tokens of "3 4 +". *)
Lemma postfix_language_witness :
  Forall tokenizer_item (map Ok [PInt 3; PInt 4; PStr "+"]) /\
  exists e, well_formed e /\ [PInt 3; PInt 4; PStr "+"] = postfix_tokens e /\
            outcome_postfix e = Ok (PInt 7).
Proof.
  assert (H : Forall tokenizer_item (map Ok [PInt 3; PInt 4; PStr "+"])).
  { constructor; [apply item_number; reflexivity|].
    constructor; [apply item_number; reflexivity|].
    constructor; [apply item_operator; reflexivity|constructor]. }
  split; [exact H|].
  exact (proj1 (postfix_language [PInt 3; PInt 4; PStr "+"] (PInt 7) H) eq_refl).
Defined.

(** ** The same expression in the two notations *)

Lemma as_forward_reraise : forall lhs rhs op,
  EvalRpn.contains op = true ->
  EvalPrefix.reraise (EvalPrefix._eval_op lhs rhs op) =
  as_forward (EvalRpn.reraise (EvalRpn._eval_op lhs rhs op)).
Proof.
  intros lhs rhs op Hop. rewrite same_eval_op.
  pose proof (eval_op_outcome lhs rhs op Hop) as H.
  destruct (EvalRpn._eval_op lhs rhs op) as [v|[c arg]|]; try reflexivity.
  simpl in H. destruct H as [-> | ->]; reflexivity.
Qed.

Lemma outcomes_translate : forall e,
  well_formed e -> outcome_forward e = as_forward (outcome_postfix e).
Proof.
  induction e as [n | op l IHl r IHr]; intros Hwf; [reflexivity|].
  destruct Hwf as [Hop [Hl Hr]]. cbn [outcome_forward outcome_postfix].
  rewrite (IHl Hl), (IHr Hr).
  pose proof (fun a b => as_forward_reraise a b (PStr op) Hop) as Hre.
  destruct (outcome_postfix l) as [a|[[] arg]|]; try reflexivity.
  cbn [as_forward bind].
  destruct (outcome_postfix r) as [b|[[] arg]|]; try reflexivity.
  cbn [as_forward bind]. apply Hre.
Qed.

(** X7: an expression tree over numbers and operators of the table has the
    same outcome in the two notations: the forward scan on its prefix
    notation returns the value that the postfix evaluator returns on its
    postfix notation, leaves the model when the other does, and fails when
    the other fails, with the same exception but for the division by zero,
    which the stack engine reports as [ZeroDivisionError] and the forward
    scan as [ValueError], with the same message. *)
Theorem notations_agree : forall (e : expr),
  well_formed e ->
  EvalPrefix._eval_expr (IGen (map Ok (prefix_tokens e))) =
  as_forward (EvalRpn._eval_expr (IGen (map Ok (postfix_tokens e))) EvalRpn._postfix_swap).
Proof.
  intros e Hwf. rewrite forward_scan_outcome, postfix_outcome by exact Hwf.
  apply outcomes_translate. exact Hwf.
Qed.

(** X7's theorem at the tree of "/ * 10 5 + 6 2" and "10 5 * 6 2 + /". *)
Lemma notations_agree_witness :
  well_formed (Bin "/" (Bin "*" (Num (PInt 10)) (Num (PInt 5)))
                       (Bin "+" (Num (PInt 6)) (Num (PInt 2)))) /\
  EvalPrefix._eval_expr (IGen (EvalPrefix._tokenize_expr "/ * 10 5 + 6 2")) =
  as_forward (EvalRpn._eval_expr (IGen (EvalRpn._tokenize_expr "10 5 * 6 2 + /"))
                EvalRpn._postfix_swap).
Proof.
  assert (Hwf : well_formed (Bin "/" (Bin "*" (Num (PInt 10)) (Num (PInt 5)))
                                     (Bin "+" (Num (PInt 6)) (Num (PInt 2))))).
  { simpl. repeat split. }
  split; [exact Hwf|].
  exact (notations_agree _ Hwf).
Defined.

(** ** What an evaluation returns *)

Lemma rpn_step_numbers : forall swap_func operands tok operands',
  tokenizer_item (Ok tok) ->
  Forall (fun x => is_number x = true) operands ->
  EvalRpn.step swap_func operands tok = Ok operands' ->
  Forall (fun x => is_number x = true) operands'.
Proof.
  intros swap_func operands tok operands' Htok Hops H.
  inversion Htok as [n Hn | op Hop |]; subst.
  - unfold EvalRpn.step in H.
    rewrite <- same_contains, number_is_no_operator in H by exact Hn.
    injection H as <-. constructor; assumption.
  - destruct operands as [|a [|b rest]].
    + unfold EvalRpn.step in H. rewrite Hop in H. discriminate.
    + unfold EvalRpn.step in H. rewrite Hop in H. discriminate.
    + rewrite rpn_step_operator in H by exact Hop.
      pose proof (eval_op_outcome (fst (swap_func a b)) (snd (swap_func a b))
                    (PStr op) Hop) as Hout.
      destruct (EvalRpn._eval_op _ _ (PStr op)) as [v|[[] arg]|];
        cbn [EvalRpn.reraise raise bind] in H; try discriminate.
      injection H as <-. inversion Hops as [|? ? _ Hops1]; subst.
      inversion Hops1; subst. constructor; assumption.
Qed.

Lemma rpn_loop_numbers : forall swap_func g operands operands',
  Forall tokenizer_item g ->
  Forall (fun x => is_number x = true) operands ->
  EvalRpn.loop swap_func g operands = Ok operands' ->
  Forall (fun x => is_number x = true) operands'.
Proof.
  intros swap_func g. induction g as [|r g IH]; intros operands operands' Hg Hops H.
  - injection H as <-. exact Hops.
  - inversion Hg as [|? ? Hr Hg']; subst. cbn [EvalRpn.loop] in H.
    destruct r as [tok|e|]; cbn [bind] in H; try discriminate.
    destruct (EvalRpn.step swap_func operands tok) as [ops|e|] eqn:Hstep;
      cbn [bind] in H; try discriminate.
    apply (IH ops operands' Hg'); [|exact H].
    eapply rpn_step_numbers; eassumption.
Qed.

(** ** Evaluations without the power operator *)

(** The operator [^] is the one entry of the table that can leave the
    ints, bools and floats: a negative number to a fractional power is a
    complex number.  The other entries take numbers to a number or raise
    [ZeroDivisionError] or [OverflowError]. *)

Lemma to_float_modelled : forall n, to_float n <> Unmodelled.
Proof.
  intros [z|f]; unfold to_float, float_of_int, raise; [|discriminate].
  destruct (binary_normalize prec emax z 0 false); discriminate.
Qed.

Lemma float_operation_result : forall a b (k : spec_float -> spec_float -> result pyobj),
  (forall fa fb, arithmetic_result (k fa fb)) ->
  arithmetic_result (fa <- to_float a ;; fb <- to_float b ;; k fa fb).
Proof.
  intros a b k Hk.
  destruct (to_float a) as [fa|e|] eqn:Ea; cbn [bind].
  - destruct (to_float b) as [fb|e|] eqn:Eb; cbn [bind].
    + apply Hk.
    + apply to_float_outcome in Eb. destruct Eb as [arg ->]. right; reflexivity.
    + exact (to_float_modelled b Eb).
  - apply to_float_outcome in Ea. destruct Ea as [arg ->]. right; reflexivity.
  - exact (to_float_modelled a Ea).
Qed.

Lemma arith_result : forall iop fop a b, arithmetic_result (arith iop fop a b).
Proof.
  intros iop fop a b. unfold arith.
  destruct a as [x|fa], b as [y|fb]; try reflexivity;
    apply float_operation_result; reflexivity.
Qed.

Lemma truediv_result : forall a b, arithmetic_result (truediv a b).
Proof.
  intros a b. unfold truediv.
  assert (Hk : forall fa fb, arithmetic_result
     (if float_is_zero fb then zero_division else Ok (PFloat (SFdiv prec emax fa fb)))).
  { intros fa fb. destruct (float_is_zero fb); [left|]; reflexivity. }
  destruct a as [x|fa], b as [y|fb];
    try (apply float_operation_result; exact Hk).
  destruct (y =? 0); [left; reflexivity|].
  destruct (ratio_to_float x y); try reflexivity. right; reflexivity.
Qed.

Lemma floordiv_result : forall a b, arithmetic_result (floordiv a b).
Proof.
  intros a b. unfold floordiv.
  assert (Hk : forall fa fb, arithmetic_result (float_floordiv fa fb)).
  { intros fa fb. unfold float_floordiv.
    destruct (float_is_zero fb); [left|]; reflexivity. }
  destruct a as [x|fa], b as [y|fb];
    try (apply float_operation_result; exact Hk).
  destruct (y =? 0); [left|]; reflexivity.
Qed.

Lemma mod_result : forall a b, arithmetic_result (mod_ a b).
Proof.
  intros a b. unfold mod_.
  assert (Hk : forall fa fb, arithmetic_result (float_mod fa fb)).
  { intros fa fb. unfold float_mod.
    destruct (float_is_zero fb); [left|]; reflexivity. }
  destruct a as [x|fa], b as [y|fb];
    try (apply float_operation_result; exact Hk).
  destruct (y =? 0); [left|]; reflexivity.
Qed.

Lemma binop_result : forall f lhs rhs,
  (forall a b, arithmetic_result (f a b)) ->
  is_number lhs = true -> is_number rhs = true ->
  arithmetic_result (binop f lhs rhs).
Proof.
  intros f lhs rhs Hf Hl Hr. unfold binop.
  destruct lhs; try discriminate; destruct rhs; try discriminate; apply Hf.
Qed.

(** Every entry of the table but [^] takes two numbers to a number or
    raises [ZeroDivisionError] or [OverflowError]. *)
Lemma table_result : forall op f lhs rhs,
  EvalRpn.lookup op EvalRpn.OPCODES = Some f ->
  op <> "^" ->
  is_number lhs = true -> is_number rhs = true ->
  arithmetic_result (f lhs rhs).
Proof.
  intros op f lhs rhs H Hpow Hl Hr. unfold EvalRpn.OPCODES in H.
  cbn [EvalRpn.lookup] in H.
  repeat match type of H with
    | (if String.eqb ?a ?b then _ else _) = _ =>
        destruct (String.eqb_spec a b);
        [ first [ contradiction
                | injection H as <-;
                  apply binop_result; [|assumption|assumption]; intros;
                  first [apply arith_result | apply truediv_result
                        | apply floordiv_result | apply mod_result
                        | reflexivity] ] |]
    end.
  discriminate.
Qed.

Lemma eval_op_result : forall lhs rhs op,
  EvalRpn.contains (PStr op) = true ->
  op <> "^" ->
  is_number lhs = true -> is_number rhs = true ->
  arithmetic_result (EvalRpn._eval_op lhs rhs (PStr op)).
Proof.
  intros lhs rhs op H Hpow Hl Hr.
  unfold EvalRpn._eval_op, EvalRpn.getitem. unfold EvalRpn.contains in H.
  destruct (EvalRpn.lookup op EvalRpn.OPCODES) as [g|] eqn:E; [|discriminate].
  cbn [bind]. exact (table_result op g lhs rhs E Hpow Hl Hr).
Qed.

(** A text without the word [^] has no item [^]. *)
Lemma pow_free_items : forall text,
  ~ In "^" (split text) ->
  ~ In (Ok (PStr "^")) (EvalRpn._tokenize_expr text).
Proof.
  intros text Hno Hin. unfold EvalRpn._tokenize_expr in Hin.
  apply in_map_iff in Hin. destruct Hin as [t [Ht Hin]].
  pose proof (classify_word t) as Hc. rewrite Ht in Hc.
  inversion Hc; subst. contradiction.
Qed.

(** One token of the stack engine, between stacks of numbers. *)
Lemma rpn_step_result : forall swap_func operands tok,
  (forall a b, is_number a = true -> is_number b = true ->
     is_number (fst (swap_func a b)) = true /\
     is_number (snd (swap_func a b)) = true) ->
  tokenizer_item (Ok tok) -> tok <> PStr "^" ->
  Forall (fun x => is_number x = true) operands ->
  match EvalRpn.step swap_func operands tok with
  | Ok operands' => Forall (fun x => is_number x = true) operands'
  | Raise _ => True
  | Unmodelled => False
  end.
Proof.
  intros swap_func operands tok Hswap Htok Hpow Hops.
  inversion Htok as [n Hn | op Hop |]; subst.
  - unfold EvalRpn.step.
    rewrite <- same_contains, number_is_no_operator by exact Hn.
    constructor; assumption.
  - destruct operands as [|a [|b rest]].
    + unfold EvalRpn.step. rewrite Hop. exact I.
    + unfold EvalRpn.step. rewrite Hop. exact I.
    + rewrite rpn_step_operator by exact Hop.
      inversion Hops as [|? ? Ha Hops1]; subst.
      inversion Hops1 as [|? ? Hb Hrest]; subst.
      destruct (Hswap a b Ha Hb) as [Hl Hr].
      assert (Hne : op <> "^") by (intros ->; apply Hpow; reflexivity).
      pose proof (eval_op_result _ _ op Hop Hne Hl Hr) as Hres.
      destruct (EvalRpn._eval_op _ _ (PStr op)) as [v|[k arg]|];
        cbn [EvalRpn.reraise bind].
      * constructor; assumption.
      * simpl in Hres. destruct Hres as [-> | ->]; exact I.
      * exact Hres.
Qed.

Lemma rpn_loop_result : forall swap_func g operands,
  (forall a b, is_number a = true -> is_number b = true ->
     is_number (fst (swap_func a b)) = true /\
     is_number (snd (swap_func a b)) = true) ->
  Forall tokenizer_item g -> ~ In (Ok (PStr "^")) g ->
  Forall (fun x => is_number x = true) operands ->
  match EvalRpn.loop swap_func g operands with
  | Ok operands' => Forall (fun x => is_number x = true) operands'
  | Raise _ => True
  | Unmodelled => False
  end.
Proof.
  intros swap_func g. induction g as [|r g IH]; intros operands Hswap Hg Hpow Hops.
  - exact Hops.
  - inversion Hg as [|? ? Hr Hg']; subst. cbn [EvalRpn.loop].
    assert (Htail : ~ In (Ok (PStr "^")) g) by (intros H; apply Hpow; right; exact H).
    destruct r as [tok|e|]; cbn [bind]; [|exact I|inversion Hr].
    assert (Hne : tok <> PStr "^") by (intros ->; apply Hpow; left; reflexivity).
    pose proof (rpn_step_result swap_func operands tok Hswap Hr Hne Hops) as Hstep.
    destruct (EvalRpn.step swap_func operands tok) as [ops|e|]; cbn [bind];
      [|exact I|exact Hstep].
    apply IH; assumption.
Qed.

(** The stacks of the forward scan at a reduction. *)
Lemma pow_free_reduction : forall st cs,
  fits_at WhileTest st -> EvalPrefix.count_stack st = 0 :: cs ->
  pow_free (EvalPrefix.token_stack st) ->
  exists rhs lhs op ts,
    EvalPrefix.token_stack st = rhs :: lhs :: PStr op :: ts /\
    is_number rhs = true /\ is_number lhs = true /\
    fits ts cs /\ pow_free ts /\
    arithmetic_result (EvalPrefix._eval_op lhs rhs (PStr op)) /\
    EvalPrefix.while_step st =
      Some (v <- EvalPrefix.reraise (EvalPrefix._eval_op lhs rhs (PStr op)) ;;
            Ok (EvalPrefix.State (v :: ts) (EvalPrefix.decrement cs))).
Proof.
  intros st cs Hfit Hcs Hpow.
  destruct (while_step_zero st cs Hfit Hcs)
    as [rhs [lhs [op [ts [Hts [Hr [Hl [Hop [Hfits Hstep]]]]]]]]].
  exists rhs, lhs, op, ts. rewrite Hts in Hpow.
  split; [exact Hts|]. split; [exact Hr|]. split; [exact Hl|].
  split; [exact Hfits|].
  split; [intros H; apply Hpow; right; right; right; exact H|].
  split; [|exact Hstep].
  rewrite same_eval_op. rewrite same_contains in Hop.
  apply eval_op_result; try assumption.
  intros ->. apply Hpow. right; right; left; reflexivity.
Qed.

Lemma pow_free_operand : forall v ts,
  is_number v = true -> pow_free ts -> pow_free (v :: ts).
Proof.
  intros v ts Hv Hts [H | H]; [subst v; discriminate|exact (Hts H)].
Qed.

(** The [while] loop between stacks without [^]. *)
Lemma while_loop_result : forall n st,
  (List.length (EvalPrefix.count_stack st) <= n)%nat ->
  fits_at WhileTest st -> pow_free (EvalPrefix.token_stack st) ->
  match EvalPrefix.while_loop st with
  | Ok st' => fits_at ForHead st' /\ pow_free (EvalPrefix.token_stack st')
  | Raise _ => True
  | Unmodelled => False
  end.
Proof.
  induction n as [|n IH]; intros st Hlen Hfit Hpow; rewrite while_loop_unfold;
    destruct (EvalPrefix.while_step st) as [r|] eqn:Hstep;
    try (split; [apply while_step_exit; assumption|exact Hpow]).
  - unfold EvalPrefix.while_step in Hstep.
    destruct (EvalPrefix.count_stack st); [discriminate|simpl in Hlen; lia].
  - destruct (EvalPrefix.count_stack st) as [|c cs] eqn:Hcs.
    { unfold EvalPrefix.while_step in Hstep. rewrite Hcs in Hstep. discriminate. }
    assert (c = 0) as ->.
    { unfold EvalPrefix.while_step in Hstep. rewrite Hcs in Hstep.
      destruct (c =? 0) eqn:E; [apply Z.eqb_eq; exact E|discriminate]. }
    destruct (pow_free_reduction st cs Hfit Hcs Hpow)
      as [rhs [lhs [op [ts [Hts [Hr [Hl [Hfits [Hfree [Hres Hstep']]]]]]]]]].
    rewrite Hstep' in Hstep. injection Hstep as <-.
    destruct (EvalPrefix._eval_op lhs rhs (PStr op)) as [v|[k arg]|];
      cbn [EvalPrefix.reraise bind]; [| |exact Hres].
    + apply IH.
      * cbn [EvalPrefix.count_stack]. simpl in Hlen.
        destruct cs; simpl in *; lia.
      * simpl. apply fits_operand; assumption.
      * cbn [EvalPrefix.token_stack]. apply pow_free_operand; assumption.
    + simpl in Hres. destruct Hres as [-> | ->]; exact I.
Qed.

Lemma drain_modelled : forall g,
  Forall tokenizer_item g -> drain g <> Unmodelled.
Proof.
  induction g as [|r g IH]; intros Hg; [discriminate|].
  inversion Hg as [|? ? Hr Hg']; subst. cbn [drain].
  destruct r as [x|e|]; cbn [bind]; [|discriminate|inversion Hr].
  specialize (IH Hg'). destruct (drain g); cbn [bind]; congruence.
Qed.

(** What is pushed is the token. *)
Lemma push_token_stack : forall tokens token pending st st1 consumed,
  EvalPrefix.push_token tokens token pending st = Ok (st1, consumed) ->
  EvalPrefix.token_stack st1 = token :: EvalPrefix.token_stack st.
Proof.
  intros tokens token pending st st1 consumed H. unfold EvalPrefix.push_token in H.
  destruct (is_number token).
  - match type of H with (bind ?m _) = _ => destruct m as [c|e|] end;
      cbn [bind] in H; try discriminate.
    injection H as <- <-. reflexivity.
  - destruct (EvalPrefix.contains token); [|discriminate].
    injection H as <- <-. reflexivity.
Qed.

Lemma push_token_modelled : forall tokens token pending st,
  Forall tokenizer_item pending ->
  EvalPrefix.push_token tokens token pending st <> Unmodelled.
Proof.
  intros tokens token pending st Hg. unfold EvalPrefix.push_token.
  destruct (is_number token).
  - destruct (EvalPrefix.token_stack st); cbn [bind]; [|discriminate].
    unfold EvalPrefix.list_tokens. destruct tokens as [g|l]; cbn [bind].
    + pose proof (drain_modelled pending Hg) as Hd.
      destruct (drain pending) as [items|e|]; cbn [bind]; try congruence.
      destruct (1 <? Z.of_nat (List.length items)); discriminate.
    + destruct (1 <? Z.of_nat (List.length l)); discriminate.
  - destruct (EvalPrefix.contains token); discriminate.
Qed.

(** The [for] loop of the forward scan over items without [^]. *)
Lemma forward_loop_result : forall tokens pending st,
  Forall tokenizer_item pending -> ~ In (Ok (PStr "^")) pending ->
  fits_at ForHead st -> pow_free (EvalPrefix.token_stack st) ->
  match EvalPrefix.loop tokens pending st with
  | Ok st' => fits_at ForHead st'
  | Raise _ => True
  | Unmodelled => False
  end.
Proof.
  intros tokens pending. induction pending as [|r rest IH]; intros st Hg Hno Hfit Hpow.
  - exact Hfit.
  - inversion Hg as [|? ? Hr Hrest]; subst. cbn [EvalPrefix.loop].
    assert (Htail : ~ In (Ok (PStr "^")) rest) by (intros H; apply Hno; right; exact H).
    destruct r as [token|e|]; cbn [bind]; [|exact I|inversion Hr].
    assert (Hne : token <> PStr "^") by (intros ->; apply Hno; left; reflexivity).
    unfold EvalPrefix.body.
    pose proof (push_token_modelled tokens token rest st Hrest) as Hmod.
    destruct (EvalPrefix.push_token tokens token rest st) as [[st1 consumed]|e|] eqn:Hpush;
      cbn [bind]; [|exact I|congruence].
    assert (Hfree : pow_free (EvalPrefix.token_stack st1)).
    { rewrite (push_token_stack _ _ _ _ _ _ Hpush).
      intros [H | H]; [exact (Hne H)|exact (Hpow H)]. }
    pose proof (while_loop_result _ st1 (Nat.le_refl _)
                  (push_token_fits _ _ _ _ _ _ Hfit Hpush) Hfree) as Hwhile.
    destruct (EvalPrefix.while_loop st1) as [st2|e|]; cbn [bind];
      [|exact I|exact Hwhile].
    destruct Hwhile as [Hfit2 Hfree2].
    destruct consumed; [exact Hfit2|]. apply IH; assumption.
Qed.

(** X8: in a text without the word [^] nothing leaves the ints, bools and
    floats.  The two evaluators return or raise, and what they return is a
    number: an int, a bool (the result of a comparison) or a float, never
    a string.  The operand stack of the postfix evaluator holds numbers
    only.  (With [^] a complex number can be returned: -8 to the power 0.5
    is one.) *)
Theorem evaluation_returns_number : forall (text : string),
  ~ In "^" (split text) ->
  (forall v, EvalRpn.eval_postfix_expr text = Ok v -> is_number v = true) /\
  (forall v, EvalPrefix.eval_prefix_expr text = Ok v -> is_number v = true) /\
  EvalRpn.eval_postfix_expr text <> Unmodelled /\
  EvalPrefix.eval_prefix_expr text <> Unmodelled /\
  (forall swap_func operands,
     EvalRpn.loop swap_func (EvalRpn._tokenize_expr text) [] = Ok operands ->
     Forall (fun x => is_number x = true) operands).
Proof.
  intros text Hno.
  pose proof (pow_free_items text Hno) as Hfree.
  assert (Hswap : forall a b, is_number a = true -> is_number b = true ->
     is_number (fst (EvalRpn._postfix_swap a b)) = true /\
     is_number (snd (EvalRpn._postfix_swap a b)) = true).
  { intros a b Ha Hb. split; assumption. }
  pose proof (rpn_loop_result EvalRpn._postfix_swap (EvalRpn._tokenize_expr text) []
                Hswap (tokenizer_items text) Hfree (Forall_nil _)) as Hpost.
  pose proof (forward_loop_result (IGen (EvalPrefix._tokenize_expr text))
                (EvalPrefix._tokenize_expr text) (EvalPrefix.State [] [])) as Hfwd.
  rewrite same_tokenizer in Hfwd.
  specialize (Hfwd (tokenizer_items text) Hfree).
  assert (Hstart : fits_at ForHead (EvalPrefix.State [] [])).
  { simpl. constructor. constructor. }
  specialize (Hfwd Hstart (fun H => H)).
  assert (Hvalue : forall v,
     EvalPrefix.eval_prefix_expr text = Ok v -> is_number v = true).
  { intros v H. unfold EvalPrefix.eval_prefix_expr, EvalPrefix._eval_expr in H.
    cbn [iter] in H. rewrite same_tokenizer in H.
    destruct (EvalPrefix.loop _ _ _) as [[ts cs]|e|]; cbn [bind] in H;
      try discriminate.
    simpl in Hfwd. unfold EvalPrefix.finish in H.
    cbn [EvalPrefix.token_stack EvalPrefix.count_stack] in H.
    destruct cs as [|c cs]; [|rewrite orb_true_r in H; discriminate].
    destruct ts as [|w ts]; [discriminate|].
    destruct (negb _ || false)%bool; [discriminate|]. injection H as <-.
    inversion Hfwd as [base Hbase | |]; subst. inversion Hbase; assumption. }
  split; [|split; [exact Hvalue|split; [|split]]].
  - intros v H. unfold EvalRpn.eval_postfix_expr, EvalRpn._eval_expr in H.
    cbn [iter] in H.
    destruct (EvalRpn.loop _ _ _) as [[|w [|w' ops]]|e|]; cbn [bind EvalRpn.finish] in H;
      try discriminate.
    injection H as <-. inversion Hpost; assumption.
  - unfold EvalRpn.eval_postfix_expr, EvalRpn._eval_expr. cbn [iter].
    destruct (EvalRpn.loop _ _ _) as [[|w [|w' ops]]|e|];
      cbn [bind EvalRpn.finish raise];
      first [discriminate | contradiction].
  - unfold EvalPrefix.eval_prefix_expr, EvalPrefix._eval_expr. cbn [iter].
    rewrite same_tokenizer.
    destruct (EvalPrefix.loop _ _ _) as [st|e|]; cbn [bind];
      [|discriminate|contradiction].
    unfold EvalPrefix.finish. destruct (_ || _)%bool; [discriminate|].
    destruct (EvalPrefix.token_stack st); discriminate.
  - intros swap_func operands H.
    eapply rpn_loop_numbers; [apply tokenizer_items|constructor|exact H].
Qed.

(** X8's theorem at "1 2 <", which evaluates to a bool. *)
Lemma evaluation_returns_number_witness :
  ~ In "^" (split "1 2 <") /\
  EvalRpn.eval_postfix_expr "1 2 <" = Ok (PBool true) /\
  is_number (PBool true) = true.
Proof.
  assert (Hno : ~ In "^" (split "1 2 <")).
  { vm_compute. intros [H | [H | [H | H]]]; try discriminate H. exact H. }
  split; [exact Hno|]. split; [reflexivity|].
  exact (proj1 (evaluation_returns_number "1 2 <" Hno) (PBool true) eq_refl).
Defined.

(** ** The forward scan on a generator and on a list *)

Lemma loop_later : forall tokens tokens' pending st,
  EvalPrefix.token_stack st <> [] ->
  EvalPrefix.loop tokens pending st = EvalPrefix.loop tokens' pending st.
Proof.
  intros tokens tokens' pending. induction pending as [|r rest IH]; intros st Hts.
  - reflexivity.
  - cbn [EvalPrefix.loop]. destruct r as [token|e|]; cbn [bind]; try reflexivity.
    destruct st as [[|x ts] cs]; [contradiction|].
    unfold EvalPrefix.body.
    destruct (push_token_later tokens tokens' token rest x ts cs) as [Heq Hok].
    rewrite <- Heq.
    destruct (EvalPrefix.push_token tokens token rest _) as [[st1 consumed]|e|];
      cbn [bind]; try reflexivity.
    destruct (Hok st1 consumed eq_refl) as [-> Hst1].
    destruct (EvalPrefix.while_loop st1) as [st2|e|] eqn:Hwhile; cbn [bind];
      try reflexivity.
    apply IH. eapply while_loop_keeps; [apply Nat.le_refl|exact Hst1|exact Hwhile].
Qed.

(** The two kinds of iterable give the same outcome but for two tokens of
    which the first is a number. *)
Lemma iterables_agree : forall ts,
  ~ (exists n x, ts = [n; x] /\ is_number n = true) ->
  EvalPrefix._eval_expr (IGen (map Ok ts)) = EvalPrefix._eval_expr (IList ts).
Proof.
  intros ts Hgap. unfold EvalPrefix._eval_expr. cbn [iter].
  destruct ts as [|t rest]; [reflexivity|].
  cbn [map EvalPrefix.loop bind]. unfold EvalPrefix.body.
  destruct (is_number t) eqn:Ht.
  - unfold EvalPrefix.push_token. rewrite Ht.
    cbn [EvalPrefix.token_stack EvalPrefix.list_tokens bind].
    rewrite drain_yields. cbn [bind].
    destruct rest as [|x [|y rest]].
    + reflexivity.
    + exfalso. apply Hgap. exists t, x. split; [reflexivity|exact Ht].
    + replace (1 <? Z.of_nat (List.length (x :: y :: rest))) with true
        by (symmetry; apply Z.ltb_lt; simpl List.length; lia).
      replace (1 <? Z.of_nat (List.length (t :: x :: y :: rest))) with true
        by (symmetry; apply Z.ltb_lt; simpl List.length; lia).
      reflexivity.
  - unfold EvalPrefix.push_token. rewrite Ht.
    destruct (EvalPrefix.contains t); cbn [bind]; [|reflexivity].
    cbn [EvalPrefix.token_stack EvalPrefix.count_stack].
    rewrite while_loop_open by discriminate. cbn [bind].
    rewrite (loop_later (IGen (Ok t :: map Ok rest)) (IList (t :: rest)))
      by discriminate.
    reflexivity.
Qed.

(** X9: the forward scan lists the token stream at most once, for its
    first token: from a token stack that is not empty the loop gives the
    same outcome whatever iterable it was called on.  As a whole, the
    evaluation of a generator and of the list of the same tokens have the
    same outcome, but for two tokens of which the first is a number, which
    the list fails with InvalidExpression. *)
Theorem forward_scan_iterable : forall (ts : list pyobj),
  ~ (exists n x, ts = [n; x] /\ is_number n = true) ->
  EvalPrefix._eval_expr (IGen (map Ok ts)) = EvalPrefix._eval_expr (IList ts) /\
  (forall tokens tokens' pending st,
     EvalPrefix.token_stack st <> [] ->
     EvalPrefix.loop tokens pending st = EvalPrefix.loop tokens' pending st) /\
  (forall n x, is_number n = true ->
     EvalPrefix._eval_expr (IList [n; x]) = raise ValueError "Invalid expression.").
Proof.
  intros ts Hgap. split; [apply iterables_agree; exact Hgap|].
  split; [intros; apply loop_later; assumption|].
  intros n x Hn. unfold EvalPrefix._eval_expr. cbn [iter map EvalPrefix.loop bind].
  unfold EvalPrefix.body, EvalPrefix.push_token. rewrite Hn. reflexivity.
Qed.

(** X9's theorem at the tokens of "+ 3 4". *)
Lemma forward_scan_iterable_witness :
  ~ (exists n x, [PStr "+"; PInt 3; PInt 4] = [n; x] /\ is_number n = true) /\
  EvalPrefix._eval_expr (IGen (map Ok [PStr "+"; PInt 3; PInt 4])) =
  EvalPrefix._eval_expr (IList [PStr "+"; PInt 3; PInt 4]).
Proof.
  assert (Hgap : ~ (exists n x, [PStr "+"; PInt 3; PInt 4] = [n; x] /\
                                is_number n = true)).
  { intros [n [x [Heq _]]]. discriminate Heq. }
  split; [exact Hgap|].
  exact (proj1 (forward_scan_iterable [PStr "+"; PInt 3; PInt 4] Hgap)).
Defined.

Lemma prefix_tokens_no_gap : forall e,
  well_formed e ->
  ~ (exists n x, prefix_tokens e = [n; x] /\ is_number n = true).
Proof.
  intros e Hwf [n [x [Heq Hn]]]. destruct e as [m | op l r].
  - discriminate Heq.
  - cbn [prefix_tokens] in Heq. injection Heq as <- _. discriminate Hn.
Qed.

(** X10: on a stream of numbers and operators of the table, given as a
    generator, the forward scan returns a value exactly in two cases: the
    tokens are the prefix notation of an expression tree, and the value is
    the one obtained from the tree, every operator applied to the value of
    its left subtree on the left and of its right subtree on the right; or
    there are two tokens, the first a number, which is the value. *)
Theorem forward_scan_language : forall (ts : list pyobj) (v : pyobj),
  Forall tokenizer_item (map Ok ts) ->
  (EvalPrefix._eval_expr (IGen (map Ok ts)) = Ok v <->
   (exists e, well_formed e /\ ts = prefix_tokens e /\ outcome_forward e = Ok v) \/
   (exists x, ts = [v; x] /\ is_number v = true)).
Proof.
  intros ts v Hts. split.
  - intros H. destruct (forward_scan_accepts ts v Hts H) as [[e [Hwf ->]] | [n [x [-> Hn]]]].
    + left. exists e. split; [exact Hwf|]. split; [reflexivity|].
      rewrite <- forward_scan_outcome by exact Hwf. exact H.
    + right. exists x. unfold EvalPrefix._eval_expr in H.
      cbn [iter map EvalPrefix.loop bind] in H.
      unfold EvalPrefix.body, EvalPrefix.push_token in H. rewrite Hn in H.
      simpl in H. injection H as <-. split; [reflexivity|exact Hn].
  - intros [[e [Hwf [-> He]]] | [x [-> Hv]]].
    + rewrite forward_scan_outcome by exact Hwf. exact He.
    + unfold EvalPrefix._eval_expr. cbn [iter map EvalPrefix.loop bind].
      unfold EvalPrefix.body, EvalPrefix.push_token. rewrite Hv. reflexivity.
Qed.

(** X10's theorem at the tokens of "3 +". *)
Lemma forward_scan_language_witness :
  Forall tokenizer_item (map Ok [PInt 3; PStr "+"]) /\
  EvalPrefix._eval_expr (IGen (map Ok [PInt 3; PStr "+"])) = Ok (PInt 3).
Proof.
  assert (H : Forall tokenizer_item (map Ok [PInt 3; PStr "+"])).
  { constructor; [apply item_number; reflexivity|].
    constructor; [apply item_operator; reflexivity|constructor]. }
  split; [exact H|].
  apply (proj2 (forward_scan_language [PInt 3; PStr "+"] (PInt 3) H)).
  right. exists (PStr "+"). split; reflexivity.
Defined.

(** X11: given the list of the tokens instead of the generator, the
    forward scan returns a value exactly when the tokens are the prefix
    notation of an expression tree, with the value obtained from the tree:
    on a list the test of the leading operand rejects every stream of more
    than one token that starts with a number. *)
Theorem forward_scan_on_list : forall (ts : list pyobj) (v : pyobj),
  Forall tokenizer_item (map Ok ts) ->
  (EvalPrefix._eval_expr (IList ts) = Ok v <->
   exists e, well_formed e /\ ts = prefix_tokens e /\ outcome_forward e = Ok v).
Proof.
  intros ts v Hts.
  assert (Hdec : (exists n x, ts = [n; x] /\ is_number n = true) \/
                 ~ (exists n x, ts = [n; x] /\ is_number n = true)).
  { destruct ts as [|n [|x [|y rest]]];
      try (right; intros [n' [x' [Heq _]]]; discriminate Heq).
    destruct (is_number n) eqn:Hn.
    - left. exists n, x. split; [reflexivity|exact Hn].
    - right. intros [n' [x' [Heq Hn']]]. injection Heq as <- <-. congruence. }
  split.
  - intros H. destruct Hdec as [[n [x [-> Hn]]] | Hgap].
    + unfold EvalPrefix._eval_expr in H. cbn [iter map EvalPrefix.loop bind] in H.
      unfold EvalPrefix.body, EvalPrefix.push_token in H. rewrite Hn in H.
      discriminate H.
    + rewrite <- iterables_agree in H by exact Hgap.
      destruct (forward_scan_accepts ts v Hts H) as [[e [Hwf ->]] | Hex];
        [|contradiction].
      exists e. split; [exact Hwf|]. split; [reflexivity|].
      rewrite <- forward_scan_outcome by exact Hwf. exact H.
  - intros [e [Hwf [-> He]]].
    rewrite <- iterables_agree by (apply prefix_tokens_no_gap; exact Hwf).
    rewrite forward_scan_outcome by exact Hwf. exact He.
Qed.

(** X11's theorem at the tokens of "+ 3 4". *)
Lemma forward_scan_on_list_witness :
  Forall tokenizer_item (map Ok [PStr "+"; PInt 3; PInt 4]) /\
  exists e, well_formed e /\ [PStr "+"; PInt 3; PInt 4] = prefix_tokens e /\
            outcome_forward e = Ok (PInt 7).
Proof.
  assert (H : Forall tokenizer_item (map Ok [PStr "+"; PInt 3; PInt 4])).
  { constructor; [apply item_operator; reflexivity|].
    constructor; [apply item_number; reflexivity|].
    constructor; [apply item_number; reflexivity|constructor]. }
  split; [exact H|].
  exact (proj1 (forward_scan_on_list [PStr "+"; PInt 3; PInt 4] (PInt 7) H) eq_refl).
Defined.

(** ** Prefix evaluation of an operator and two texts *)

(** A text of other than two words that the forward scan evaluates is the
    prefix notation of an expression. *)
Lemma evaluated_text : forall text v,
  EvalPrefix.eval_prefix_expr text = Ok v ->
  List.length (split text) <> 2%nat ->
  exists e, well_formed e /\
            EvalPrefix._tokenize_expr text = map Ok (prefix_tokens e) /\
            outcome_forward e = Ok v.
Proof.
  intros text v H Hlen. unfold EvalPrefix.eval_prefix_expr in H.
  assert (Hall : exists items, EvalPrefix._tokenize_expr text = map Ok items).
  { unfold EvalPrefix._eval_expr in H. cbn [iter] in H.
    destruct (EvalPrefix.loop _ _ _) as [st|e|] eqn:Hloop; cbn [bind] in H;
      try discriminate.
    eapply forward_loop_all; exact Hloop. }
  destruct Hall as [items Hitems].
  assert (Hok : Forall tokenizer_item (map Ok items)).
  { rewrite <- Hitems, same_tokenizer. apply tokenizer_items. }
  rewrite Hitems in H.
  destruct (forward_scan_accepts items v Hok H) as [[e [Hwf ->]] | [n [x [-> _]]]].
  - exists e. split; [exact Hwf|]. split; [exact Hitems|].
    rewrite <- forward_scan_outcome by exact Hwf. exact H.
  - exfalso. apply Hlen.
    assert (Hl : List.length (EvalPrefix._tokenize_expr text) = 2%nat)
      by (rewrite Hitems; reflexivity).
    unfold EvalPrefix._tokenize_expr in Hl. rewrite length_map in Hl. exact Hl.
Qed.

(** X12: prefix evaluation composes.  When two texts evaluate to the values
    [va] and [vb], and neither is made of two words, an operator symbol
    followed by the two texts, with whitespace between the three, evaluates
    as the operator applied to [va] on the left and [vb] on the right, with
    the exceptions of the operator reported as the forward scan reports
    them. *)
Theorem prefix_composes : forall (a b op : string) (c d : ascii) (va vb : pyobj),
  isspace c = true -> isspace d = true -> In op symbols ->
  EvalPrefix.eval_prefix_expr a = Ok va ->
  EvalPrefix.eval_prefix_expr b = Ok vb ->
  List.length (split a) <> 2%nat ->
  List.length (split b) <> 2%nat ->
  EvalPrefix.eval_prefix_expr (op ++ String c (a ++ String d b)) =
  EvalPrefix.reraise (EvalPrefix._eval_op va vb (PStr op)).
Proof.
  intros a b op c d va vb Hc Hd Hop Ha Hb Hla Hlb.
  destruct (evaluated_text a va Ha Hla) as [ea [Hwa [Hta Hva]]].
  destruct (evaluated_text b vb Hb Hlb) as [eb [Hwb [Htb Hvb]]].
  unfold EvalPrefix.eval_prefix_expr.
  rewrite same_tokenizer in *.
  rewrite !tokenize_space by assumption.
  rewrite (tokenize_symbol op Hop), Hta, Htb.
  change ([Ok (PStr op)] ++ map Ok (prefix_tokens ea) ++ map Ok (prefix_tokens eb))
    with (Ok (PStr op) :: (map Ok (prefix_tokens ea) ++ map Ok (prefix_tokens eb))).
  rewrite <- map_app.
  change (Ok (PStr op) :: map Ok (prefix_tokens ea ++ prefix_tokens eb))
    with (map Ok (prefix_tokens (Bin op ea eb))).
  rewrite forward_scan_outcome.
  - cbn [outcome_forward]. rewrite Hva, Hvb. reflexivity.
  - cbn [well_formed]. split; [|split; assumption].
    exact (proj2 (contains_symbols op) Hop).
Qed.

(** X12's theorem at "* 10 5" and "+ 6 2" under "/". *)
Lemma prefix_composes_witness :
  isspace " " = true /\ In "/" symbols /\
  EvalPrefix.eval_prefix_expr "* 10 5" = Ok (PInt 50) /\
  EvalPrefix.eval_prefix_expr "+ 6 2" = Ok (PInt 8) /\
  List.length (split "* 10 5") <> 2%nat /\
  List.length (split "+ 6 2") <> 2%nat /\
  EvalPrefix.eval_prefix_expr ("/" ++ String " " ("* 10 5" ++ String " " "+ 6 2")) =
    EvalPrefix.reraise (EvalPrefix._eval_op (PInt 50) (PInt 8) (PStr "/")).
Proof.
  assert (Hop : In "/" symbols) by (simpl; tauto).
  assert (Hla : List.length (split "* 10 5") <> 2%nat) by (simpl; discriminate).
  assert (Hlb : List.length (split "+ 6 2") <> 2%nat) by (simpl; discriminate).
  split; [reflexivity|]. split; [exact Hop|].
  split; [reflexivity|]. split; [reflexivity|].
  split; [exact Hla|]. split; [exact Hlb|].
  exact (prefix_composes "* 10 5" "+ 6 2" "/" " " " " (PInt 50) (PInt 8)
           eq_refl eq_refl Hop eq_refl eq_refl Hla Hlb).
Defined.

(** ** A string that is no key of the table *)

(** X13: a string that is not a key of the table is treated in three
    ways.  [_eval_op] raises [KeyError] with the string.  The stack engine
    never gets there: it stacks the string as an operand, so that a stream
    of this one token evaluates to the string.  The forward scan rejects it
    with its "Invalid operator seen." [ValueError] as soon as it reads it,
    whatever the stacks hold. *)
Theorem unknown_string_token : forall (s : string),
  EvalRpn.contains (PStr s) = false ->
  (forall lhs rhs,
     EvalRpn._eval_op lhs rhs (PStr s) = Raise (Exn KeyError (PStr s)) /\
     EvalPrefix._eval_op lhs rhs (PStr s) = Raise (Exn KeyError (PStr s))) /\
  (forall swap_func operands,
     EvalRpn.step swap_func operands (PStr s) = Ok (PStr s :: operands)) /\
  (forall swap_func,
     EvalRpn._eval_expr (IList [PStr s]) swap_func = Ok (PStr s)) /\
  (forall tokens rest st,
     EvalPrefix.loop tokens (Ok (PStr s) :: rest) st =
     raise ValueError "Invalid operator seen.").
Proof.
  intros s H.
  assert (Hget : EvalRpn.getitem (PStr s) = Raise (Exn KeyError (PStr s))).
  { unfold EvalRpn.contains in H. unfold EvalRpn.getitem.
    destruct (EvalRpn.lookup s EvalRpn.OPCODES); [discriminate|reflexivity]. }
  assert (Hstep : forall swap_func operands,
     EvalRpn.step swap_func operands (PStr s) = Ok (PStr s :: operands)).
  { intros swap_func operands. unfold EvalRpn.step. rewrite H. reflexivity. }
  split; [|split; [exact Hstep|split]].
  - intros lhs rhs. rewrite same_eval_op. unfold EvalRpn._eval_op.
    rewrite Hget. split; reflexivity.
  - intros swap_func. unfold EvalRpn._eval_expr. cbn [iter map EvalRpn.loop bind].
    rewrite Hstep. reflexivity.
  - intros tokens rest st. cbn [EvalPrefix.loop bind].
    unfold EvalPrefix.body, EvalPrefix.push_token. cbn [is_number].
    rewrite same_contains, H. reflexivity.
Qed.

(** X13's theorem at "$". *)
Lemma unknown_string_token_witness :
  EvalRpn.contains (PStr "$") = false /\
  EvalRpn._eval_expr (IList [PStr "$"]) EvalRpn._postfix_swap = Ok (PStr "$").
Proof.
  split; [reflexivity|].
  exact (proj1 (proj2 (proj2 (unknown_string_token "$" eq_refl))) EvalRpn._postfix_swap).
Defined.

(** ** A text without a word *)

Lemma split_from_current : forall s c cur,
  split_from (String c cur) s <> [].
Proof.
  induction s as [|x s IH]; intros c cur; cbn [split_from].
  - discriminate.
  - destruct (isspace x); [discriminate|]. apply IH.
Qed.

Lemma split_blank : forall text,
  split text = [] <->
  (forall c, In c (list_ascii_of_string text) -> isspace c = true).
Proof.
  unfold split. induction text as [|x text IH]; cbn [split_from list_ascii_of_string].
  - split; [intros _ c []|reflexivity].
  - destruct (isspace x) eqn:Hx.
    + rewrite IH. split.
      * intros H c [<- | Hc]; [exact Hx|apply H; exact Hc].
      * intros H c Hc. apply H. right. exact Hc.
    + split.
      * intros H. exfalso. exact (split_from_current text x EmptyString H).
      * intros H. specialize (H x (or_introl eq_refl)). congruence.
Qed.

(** X14: a text gives no token exactly when all its characters are
    whitespace, and then both evaluators fail with the "Invalid
    expression." [ValueError]; the forward scan does not return 0. *)
Theorem blank_text : forall (text : string),
  (EvalRpn._tokenize_expr text = [] <->
   forall c, In c (list_ascii_of_string text) -> isspace c = true) /\
  (EvalRpn._tokenize_expr text = [] ->
   EvalRpn.eval_postfix_expr text = raise ValueError "Invalid expression." /\
   EvalPrefix.eval_prefix_expr text = raise ValueError "Invalid expression.").
Proof.
  intros text. split.
  - rewrite <- split_blank. unfold EvalRpn._tokenize_expr. split; intros H.
    + destruct (split text); [reflexivity|discriminate].
    + rewrite H. reflexivity.
  - intros H. unfold EvalRpn.eval_postfix_expr, EvalPrefix.eval_prefix_expr.
    rewrite same_tokenizer, H. split; reflexivity.
Qed.

(** X14's theorem at a space and a tab. *)
Lemma blank_text_witness :
  EvalRpn._tokenize_expr (String " " (String "009" EmptyString)) = [] /\
  EvalPrefix.eval_prefix_expr (String " " (String "009" EmptyString)) =
    raise ValueError "Invalid expression.".
Proof.
  split; [reflexivity|].
  exact (proj2 (proj2 (blank_text (String " " (String "009" EmptyString))) eq_refl)).
Defined.

(** ** The reductions of the forward scan *)

(** A state of an evaluation that has read no [^] is a state of the
    forward scan, with no [^] on its token stack. *)
Lemma pow_free_reaches : forall tokens p st,
  reaches_pow_free tokens p st ->
  reaches tokens p st /\ pow_free (EvalPrefix.token_stack st).
Proof.
  intros tokens p st H. induction H as
    [ | st token pending st1 consumed _ [IH Hfree] Hne Hpush
      | st st' _ [IH Hfree] Hstep
      | st _ [IH Hfree] Hstep ].
  - split; [apply reaches_start|]. intros [].
  - split; [eapply reaches_push; eassumption|].
    rewrite (push_token_stack _ _ _ _ _ _ Hpush).
    intros [H | H]; [exact (Hne H)|exact (Hfree H)].
  - split; [eapply reaches_reduce; eassumption|].
    destruct (EvalPrefix.count_stack st) as [|c cs] eqn:Hcs.
    { unfold EvalPrefix.while_step in Hstep. rewrite Hcs in Hstep. discriminate. }
    assert (c = 0) as ->.
    { unfold EvalPrefix.while_step in Hstep. rewrite Hcs in Hstep.
      destruct (c =? 0) eqn:E; [apply Z.eqb_eq; exact E|discriminate]. }
    destruct (pow_free_reduction st cs (reaches_fits _ _ _ IH) Hcs Hfree)
      as [rhs [lhs [op [ts [Hts [Hr [Hl [Hfits [Hfree' [Hres Hstep']]]]]]]]]].
    rewrite Hstep' in Hstep. injection Hstep as Hstep.
    destruct (EvalPrefix._eval_op lhs rhs (PStr op)) as [v|[[] arg]|];
      cbn [EvalPrefix.reraise raise bind] in Hstep; try discriminate.
    injection Hstep as <-. cbn [EvalPrefix.token_stack].
    apply pow_free_operand; assumption.
  - split; [apply reaches_exit; assumption|exact Hfree].
Qed.

(** The [while] loop of an evaluation that has read no [^] ends at the
    head of the [for] loop. *)
Lemma while_loop_pow_free : forall tokens n st st',
  (List.length (EvalPrefix.count_stack st) <= n)%nat ->
  reaches_pow_free tokens WhileTest st ->
  EvalPrefix.while_loop st = Ok st' ->
  reaches_pow_free tokens ForHead st'.
Proof.
  intros tokens n. induction n as [|n IH]; intros st st' Hlen Hreach H;
    rewrite while_loop_unfold in H;
    destruct (EvalPrefix.while_step st) as [r|] eqn:Hstep.
  - unfold EvalPrefix.while_step in Hstep.
    destruct (EvalPrefix.count_stack st); [discriminate|simpl in Hlen; lia].
  - injection H as <-. apply pow_free_exit; assumption.
  - destruct r as [st1|e|]; cbn [bind] in H; try discriminate.
    apply (IH st1 st'); [|eapply pow_free_reduce; eassumption|exact H].
    unfold EvalPrefix.while_step in Hstep.
    destruct (EvalPrefix.count_stack st) as [|c cs]; [discriminate|].
    destruct (c =? 0); [|discriminate].
    destruct (EvalPrefix.reduce (EvalPrefix.token_stack st)); cbn [bind] in Hstep;
      try discriminate.
    injection Hstep as <-. simpl in *.
    destruct cs; simpl in *; lia.
  - injection H as <-. apply pow_free_exit; assumption.
Qed.

(** The evaluation of a stream without [^] only goes through the states of
    [reaches_pow_free]. *)
Lemma loop_pow_free : forall tokens pending st st',
  ~ In (Ok (PStr "^")) pending ->
  reaches_pow_free tokens ForHead st ->
  EvalPrefix.loop tokens pending st = Ok st' ->
  reaches_pow_free tokens ForHead st'.
Proof.
  intros tokens pending. induction pending as [|r rest IH]; intros st st' Hno Hreach H.
  - injection H as <-. exact Hreach.
  - cbn [EvalPrefix.loop] in H. destruct r as [token|e|]; cbn [bind] in H;
      try discriminate.
    assert (Hne : token <> PStr "^") by (intros ->; apply Hno; left; reflexivity).
    unfold EvalPrefix.body in H.
    destruct (EvalPrefix.push_token tokens token rest st) as [[st1 consumed]|e|] eqn:Hpush;
      cbn [bind] in H; try discriminate.
    destruct (EvalPrefix.while_loop st1) as [st2|e|] eqn:Hwhile;
      cbn [bind] in H; try discriminate.
    assert (Hst2 : reaches_pow_free tokens ForHead st2).
    { eapply while_loop_pow_free; [apply Nat.le_refl| |exact Hwhile].
      eapply pow_free_push; eassumption. }
    destruct consumed; [injection H as <-; exact Hst2|].
    apply (IH st2 st'); [|exact Hst2|exact H].
    intros Hin. apply Hno. right. exact Hin.
Qed.

(** X15: in an evaluation that has read no token [^], whenever the forward
    scan reduces, the token stack holds two numbers over an operator of the
    table other than [^]: the three pops succeed and the operator is
    applied to ints, bools or floats.  The reduction puts a number in the
    place of the three, or fails with "Can not divide by zero." or with the
    [OverflowError] of the operator, and nothing else: the clause that
    turns [ValueError] and [IndexError] into "Invalid expression." is not
    entered.  (After a [^] an operand can be a complex number, and a
    comparison, [//] or [%] on it raises [TypeError].) *)
Theorem reduction_is_arithmetic : forall (tokens : iterable) (st : EvalPrefix.state)
  (cs : list Z),
  reaches_pow_free tokens WhileTest st ->
  EvalPrefix.count_stack st = 0 :: cs ->
  exists rhs lhs op ts,
    EvalPrefix.token_stack st = rhs :: lhs :: PStr op :: ts /\
    is_number rhs = true /\ is_number lhs = true /\
    EvalPrefix.contains (PStr op) = true /\ op <> "^" /\
    arithmetic_result (EvalPrefix._eval_op lhs rhs (PStr op)) /\
    ((exists v, EvalPrefix.reduce (EvalPrefix.token_stack st) = Ok (v :: ts) /\
                is_number v = true) \/
     EvalPrefix.reduce (EvalPrefix.token_stack st) =
       raise ValueError "Can not divide by zero." \/
     (exists arg, EvalPrefix.reduce (EvalPrefix.token_stack st) =
                  Raise (Exn OverflowError arg))).
Proof.
  intros tokens st cs Hreach Hcs.
  destruct (pow_free_reaches _ _ _ Hreach) as [Hreaches Hfree].
  pose proof (reaches_fits _ _ _ Hreaches) as Hfit.
  destruct (while_step_zero st cs Hfit Hcs)
    as [rhs [lhs [op [ts [Hts [Hr [Hl [Hop _]]]]]]]].
  destruct (pow_free_reduction st cs Hfit Hcs Hfree)
    as [rhs' [lhs' [op' [ts' [Hts' [_ [_ [_ [_ [Hres _]]]]]]]]]].
  rewrite Hts in Hts'. injection Hts' as <- <- <- <-.
  exists rhs, lhs, op, ts.
  split; [exact Hts|]. split; [exact Hr|]. split; [exact Hl|].
  split; [exact Hop|].
  split; [intros ->; apply Hfree; rewrite Hts; right; right; left; reflexivity|].
  split; [exact Hres|].
  rewrite Hts. unfold EvalPrefix.reduce. cbn [pop bind].
  rewrite prefix_reraise_value.
  destruct (EvalPrefix._eval_op lhs rhs (PStr op)) as [v|[k arg]|];
    cbn [EvalPrefix.reraise bind].
  - left. exists v. split; [reflexivity|exact Hres].
  - simpl in Hres. destruct Hres as [-> | ->]; cbn [bind raise].
    + right; left. reflexivity.
    + right; right. exists arg. reflexivity.
  - contradiction.
Qed.

(** X15's theorem at the stacks of "/ 1 0" after the token 0. *)
Lemma reduction_is_arithmetic_witness :
  reaches_pow_free (IGen []) WhileTest
    (EvalPrefix.State [PInt 0; PInt 1; PStr "/"] [0]) /\
  EvalPrefix.reduce [PInt 0; PInt 1; PStr "/"] =
    raise ValueError "Can not divide by zero." /\
  exists rhs lhs op ts,
    [PInt 0; PInt 1; PStr "/"] = rhs :: lhs :: PStr op :: ts /\
    is_number rhs = true /\ is_number lhs = true /\
    EvalPrefix.contains (PStr op) = true /\ op <> "^" /\
    arithmetic_result (EvalPrefix._eval_op lhs rhs (PStr op)) /\
    ((exists v, EvalPrefix.reduce [PInt 0; PInt 1; PStr "/"] = Ok (v :: ts) /\
                is_number v = true) \/
     EvalPrefix.reduce [PInt 0; PInt 1; PStr "/"] =
       raise ValueError "Can not divide by zero." \/
     (exists arg, EvalPrefix.reduce [PInt 0; PInt 1; PStr "/"] =
                  Raise (Exn OverflowError arg))).
Proof.
  assert (H1 : reaches_pow_free (IGen []) WhileTest (EvalPrefix.State [PStr "/"] [2])).
  { apply (pow_free_push (IGen []) (EvalPrefix.State [] []) (PStr "/") [] _ false).
    - apply pow_free_start.
    - discriminate.
    - reflexivity. }
  assert (H2 : reaches_pow_free (IGen []) WhileTest
                 (EvalPrefix.State [PInt 1; PStr "/"] [1])).
  { apply (pow_free_push (IGen []) (EvalPrefix.State [PStr "/"] [2]) (PInt 1) [] _ false).
    - apply pow_free_exit; [exact H1|reflexivity].
    - discriminate.
    - reflexivity. }
  assert (H3 : reaches_pow_free (IGen []) WhileTest
                 (EvalPrefix.State [PInt 0; PInt 1; PStr "/"] [0])).
  { apply (pow_free_push (IGen []) (EvalPrefix.State [PInt 1; PStr "/"] [1]) (PInt 0) [] _ false).
    - apply pow_free_exit; [exact H2|reflexivity].
    - discriminate.
    - reflexivity. }
  split; [exact H3|]. split; [reflexivity|].
  exact (reduction_is_arithmetic (IGen [])
           (EvalPrefix.State [PInt 0; PInt 1; PStr "/"] [0]) [] H3 eq_refl).
Defined.
